(** * justjit: RAII wrappers for Python-C interop (src/raii_wrapper.h)

    A shallow embedding of the header's classes and converters:
    - [ScopeGuard]                    generic cleanup on scope exit,
    - [GILGuard] / [GILRelease]       GIL management,
    - [PyObjectPtr]                   owning handle on a [PyObject*],
    - [NumpyBuffer]                   buffer-protocol view,
    - [py_to_long] ... [string_to_py] scalar converters.

    The header is a thin layer over the CPython C API.  The entry points it
    calls are modelled first ([Module CPython], [Module GIL]); the classes
    and converters are then transcribed method by method, and the theorems
    follow in the [...Theory] modules. *)

From Stdlib Require Import ZArith List Bool Lia.
From Stdlib Require Import Floats.SpecFloat.
From stdpp Require Import gmap strings list fin_maps.

(* ===================================================================== *)
(** * The host runtime (CPython C API)                                    *)
(* ===================================================================== *)

(** The runtime's entry points and macros ([Py_XINCREF], [Py_XDECREF],
    [PyObject_GetBuffer], [PyBuffer_Release], [PyLong_AsLongLong],
    [PyObject_IsTrue], ...) are declared by [<Python.h>], not by this
    repository: they are the environment the header runs in.  Each is
    modelled after its CPython documentation: what it returns, when it
    fails, and what it does to reference counts and to the error
    indicator. *)
Module CPython.

(** [PyObject*]: the null pointer is [0], an object lives at a positive
    address. *)
Abbreviation ptr := N (only parsing).
Abbreviation NULL := 0%N (only parsing).

(** A C [double]: IEEE binary64. *)
Abbreviation double := spec_float (only parsing).
Definition dbl_prec : Z := 53.
Definition dbl_emax : Z := 1024.

(** [static_cast<double>(long long)]: round to nearest, ties to even. *)
Definition double_of_Z (z : Z) : double :=
  binary_normalize dbl_prec dbl_emax z 0 false.

Definition dbl_zero : double := S754_zero false.
Definition dbl_minus_one : double := S754_finite true 4503599627370496 (-52).

(** [long long] is 64 bits wide. *)
Definition LLONG_MIN : Z := - 2 ^ 63.
Definition LLONG_MAX : Z := 2 ^ 63 - 1.
Definition fits_long_long (z : Z) : bool :=
  (LLONG_MIN <=? z)%Z && (z <=? LLONG_MAX)%Z.

(** The exceptions the modelled entry points can leave in the error
    indicator. [UserError] stands for whatever a user-defined slot raised. *)
Inductive exc :=
  | TypeError | OverflowError | MemoryError | BufferError | SystemError
  | UnicodeDecodeError | UnicodeEncodeError | UserError.

(** Outcome of calling a type slot ([nb_index], [nb_bool]).  Only the
    outcome is modelled: what else the slot's code does to the runtime
    (the references a pending exception keeps, whatever the user's code
    changes) is not. *)
Inductive slot (A : Type) :=
  | NoSlot
  | Raises
  | Returns (a : A).
Arguments NoSlot {A}.
Arguments Raises {A}.
Arguments Returns {A} a.

(** What a buffer exporter hands out in a [Py_buffer] (besides [obj]). *)
Record buffer_info := mkInfo {
  bi_buf      : N;            (* address of the first byte *)
  bi_len      : Z;
  bi_itemsize : Z;
  bi_readonly : Z;
  bi_ndim     : Z;
  bi_format   : string;
  bi_shape    : list Z;
  bi_strides  : list Z
}.

(** The objects told apart here.  [PyRefusing e nonzero] has the buffer
    interface, but its [bf_getbuffer] fails with [e] (a released
    memoryview, an ndarray whose dtype has no buffer format); [nonzero] is
    what its truth test returns. *)
Inductive pyval :=
  | PyNone
  | PyBool (b : bool)
  | PyLong (z : Z)
  | PyFloat (d : double)
  | PyUnicode (cps : list N)                       (* code points *)
  | PyExporter (info : buffer_info)                (* bytes, ndarray, ... *)
  | PyInstance (nb_index : slot Z) (nb_bool : slot bool)
  | PyRefusing (e : exc) (nonzero : bool).

Record PyObject := mkObj {
  ob_refcnt : Z;
  ob_val    : pyval
}.

(** Buffer-protocol traffic seen by the exporters. *)
Inductive event :=
  | EvExport (a : positive)      (* bf_getbuffer succeeded on [a] *)
  | EvRelease (a : positive).    (* PyBuffer_Release gave a view on [a] back *)

Record runtime := mkRt {
  heap     : gmap positive PyObject;
  err      : option exc;         (* the per-thread error indicator *)
  mem_left : nat;                (* objects the allocator can still hand
                                    out, its free lists included *)
  trace    : list event
}.

Definition set_heap (h : gmap positive PyObject) (rt : runtime) : runtime :=
  mkRt h (err rt) (mem_left rt) (trace rt).
Definition set_err (e : exc) (rt : runtime) : runtime :=
  mkRt (heap rt) (Some e) (mem_left rt) (trace rt).
Definition log (ev : event) (rt : runtime) : runtime :=
  mkRt (heap rt) (err rt) (mem_left rt) (trace rt ++ [ev]).

(** Reference count of the object at [a]; [0] when nothing lives there. *)
Definition refcnt (rt : runtime) (a : positive) : Z :=
  from_option ob_refcnt 0%Z (heap rt !! a).

(** Runtime calls: a state transformer that is undefined ([None]) where C
    has undefined behaviour (a non-null pointer to no object). *)
Definition M (A : Type) : Type := runtime -> option (A * runtime).

Definition ret {A} (a : A) : M A := fun rt => Some (a, rt).
Definition bind {A B} (m : M A) (k : A -> M B) : M B :=
  fun rt => match m rt with
            | Some (a, rt') => k a rt'
            | None => None
            end.
Definition fail_with {A} (e : exc) (a : A) : M A :=
  fun rt => Some (a, set_err e rt).
Definition deref (a : positive) : M PyObject :=
  fun rt => match heap rt !! a with
            | Some o => Some (o, rt)
            | None => None
            end.

Notation "x <- m ;; k" := (bind m (fun x => k))
  (at level 100, m at next level, right associativity).

(** ** Reference counting *)

(** [Py_INCREF(op)]: [++op->ob_refcnt]. *)
Definition Py_INCREF (a : positive) : M unit :=
  fun rt => match heap rt !! a with
            | Some o =>
                Some (tt, set_heap (<[a := mkObj (ob_refcnt o + 1) (ob_val o)]> (heap rt)) rt)
            | None => None
            end.

(** [Py_DECREF(op)]: [if (--op->ob_refcnt == 0) _Py_Dealloc(op)].  The
    objects modelled here hold no references to other objects, so
    deallocation only frees the storage: nothing lives at [a] afterwards. *)
Definition Py_DECREF (a : positive) : M unit :=
  fun rt => match heap rt !! a with
            | Some o =>
                let n := (ob_refcnt o - 1)%Z in
                Some (tt, set_heap (if (n =? 0)%Z then delete a (heap rt)
                                    else <[a := mkObj n (ob_val o)]> (heap rt)) rt)
            | None => None
            end.

(** [Py_XINCREF] / [Py_XDECREF]: the null-tolerant variants. *)
Definition Py_XINCREF (p : ptr) : M unit :=
  match p with
  | N0 => ret tt
  | Npos a => Py_INCREF a
  end.

Definition Py_XDECREF (p : ptr) : M unit :=
  match p with
  | N0 => ret tt
  | Npos a => Py_DECREF a
  end.

(** ** Allocation *)

(** A new object with one reference, at an address nothing lives at; the
    null pointer and [MemoryError] when memory has run out. *)
Definition alloc (v : pyval) : M ptr :=
  fun rt => match mem_left rt with
            | O => Some (NULL, set_err MemoryError rt)
            | S n =>
                let a := fresh (dom (heap rt)) in
                Some (Npos a, mkRt (<[a := mkObj 1 v]> (heap rt)) (err rt) n (trace rt))
            end.

(** ** UTF-8 (strict: no overlong forms, no surrogates, at most U+10FFFF) *)

Definition is_cont (b : N) : bool := ((128 <=? b) && (b <=? 191))%N.
Definition is_surrogate (cp : N) : bool := ((55296 <=? cp) && (cp <=? 57343))%N.

Fixpoint utf8_decode (bs : list N) : option (list N) :=
  match bs with
  | [] => Some []
  | b0 :: r0 =>
      if (b0 <? 128)%N then cons b0 <$> utf8_decode r0
      else if ((194 <=? b0) && (b0 <=? 223))%N then
        match r0 with
        | b1 :: r1 =>
            if is_cont b1
            then cons ((b0 - 192) * 64 + (b1 - 128))%N <$> utf8_decode r1
            else None
        | _ => None
        end
      else if ((224 <=? b0) && (b0 <=? 239))%N then
        match r0 with
        | b1 :: b2 :: r2 =>
            let cp := ((b0 - 224) * 4096 + (b1 - 128) * 64 + (b2 - 128))%N in
            if is_cont b1 && is_cont b2 && (2048 <=? cp)%N && negb (is_surrogate cp)
            then cons cp <$> utf8_decode r2
            else None
        | _ => None
        end
      else if ((240 <=? b0) && (b0 <=? 244))%N then
        match r0 with
        | b1 :: b2 :: b3 :: r3 =>
            let cp := ((b0 - 240) * 262144 + (b1 - 128) * 4096
                       + (b2 - 128) * 64 + (b3 - 128))%N in
            if is_cont b1 && is_cont b2 && is_cont b3
               && (65536 <=? cp)%N && (cp <=? 1114111)%N
            then cons cp <$> utf8_decode r3
            else None
        | _ => None
        end
      else None
  end.

Definition utf8_encode_cp (cp : N) : option (list N) :=
  if (cp <? 128)%N then Some [cp]
  else if (cp <? 2048)%N then Some [192 + cp / 64; 128 + cp mod 64]%N
  else if is_surrogate cp then None
  else if (cp <? 65536)%N then
    Some [224 + cp / 4096; 128 + (cp / 64) mod 64; 128 + cp mod 64]%N
  else if (cp <=? 1114111)%N then
    Some [240 + cp / 262144; 128 + (cp / 4096) mod 64;
          128 + (cp / 64) mod 64; 128 + cp mod 64]%N
  else None.

Fixpoint utf8_encode (cps : list N) : option (list N) :=
  match cps with
  | [] => Some []
  | cp :: r =>
      match utf8_encode_cp cp, utf8_encode r with
      | Some bs, Some rest => Some (bs ++ rest)
      | _, _ => None
      end
  end.

(** A [const char*] is the text it points at; what [strlen] sees of it ends
    at the first NUL. *)
Definition bytes_of_string (s : string) : list N :=
  map Ascii.N_of_ascii (String.list_ascii_of_string s).
Definition string_of_bytes (bs : list N) : string :=
  String.string_of_list_ascii (map Ascii.ascii_of_N bs).
Fixpoint c_str (bs : list N) : list N :=
  match bs with
  | [] => []
  | b :: r => if (b =? 0)%N then [] else b :: c_str r
  end.

(** ** Numbers, strings, truth *)

Definition dbl_is_finite (d : double) : bool :=
  match d with
  | S754_zero _ | S754_finite _ _ _ => true
  | _ => false
  end.

Definition dbl_is_zero (d : double) : bool :=
  match d with
  | S754_zero _ => true
  | _ => false
  end.

Definition long_long_of (z : Z) : M Z :=
  if fits_long_long z then ret z else fail_with OverflowError (-1)%Z.

(** [long long PyLong_AsLongLong(PyObject *obj)]: the value of an [int];
    otherwise [__index__] is tried first; [-1] with the error indicator set
    on failure ([OverflowError] out of range, [TypeError] without
    [__index__]). *)
Definition PyLong_AsLongLong (p : ptr) : M Z :=
  match p with
  | N0 => fail_with SystemError (-1)%Z
  | Npos a =>
      o <- deref a ;;
      match ob_val o with
      | PyLong z => long_long_of z
      | PyBool b => ret (if b then 1 else 0)%Z
      | PyInstance (Returns z) _ => long_long_of z
      | PyInstance Raises _ => fail_with UserError (-1)%Z
      | _ => fail_with TypeError (-1)%Z
      end
  end.

(** [PyFloat_Check] and [PyLong_Check] read the object's type ([bool] is a
    subclass of [int]); on the null pointer they read through it. *)
Definition PyFloat_Check (p : ptr) : M bool :=
  match p with
  | N0 => fun _ => None
  | Npos a =>
      o <- deref a ;;
      ret (match ob_val o with PyFloat _ => true | _ => false end)
  end.

Definition PyLong_Check (p : ptr) : M bool :=
  match p with
  | N0 => fun _ => None
  | Npos a =>
      o <- deref a ;;
      ret (match ob_val o with PyLong _ | PyBool _ => true | _ => false end)
  end.

Definition double_of_int (z : Z) : M double :=
  let d := double_of_Z z in
  if dbl_is_finite d then ret d else fail_with OverflowError dbl_minus_one.

(** [double PyFloat_AsDouble(PyObject *pyfloat)]: the value of a [float];
    otherwise the number protocol; [-1.0] with the error indicator set on
    failure. *)
Definition PyFloat_AsDouble (p : ptr) : M double :=
  match p with
  | N0 => fail_with TypeError dbl_minus_one
  | Npos a =>
      o <- deref a ;;
      match ob_val o with
      | PyFloat d => ret d
      | PyLong z => double_of_int z
      | PyBool b => double_of_int (if b then 1 else 0)%Z
      | PyInstance (Returns z) _ => double_of_int z
      | PyInstance Raises _ => fail_with UserError dbl_minus_one
      | _ => fail_with TypeError dbl_minus_one
      end
  end.

(** [const char* PyUnicode_AsUTF8(PyObject *unicode)]: the UTF-8 text of a
    [str], owned by the object; the null pointer ([None] here) with the
    error indicator set otherwise. *)
Definition PyUnicode_AsUTF8 (p : ptr) : M (option string) :=
  match p with
  | N0 => fun _ => None
  | Npos a =>
      o <- deref a ;;
      match ob_val o with
      | PyUnicode cps =>
          match utf8_encode cps with
          | Some bs => ret (Some (string_of_bytes bs))
          | None => fail_with UnicodeEncodeError None
          end
      | _ => fail_with TypeError None
      end
  end.

(** [int PyObject_IsTrue(PyObject *o)]: [1] when true, [0] when false,
    [-1] with the error indicator set when the truth test fails. *)
Definition PyObject_IsTrue (p : ptr) : M Z :=
  match p with
  | N0 => fun _ => None
  | Npos a =>
      o <- deref a ;;
      match ob_val o with
      | PyNone => ret 0%Z
      | PyBool b => ret (if b then 1 else 0)%Z
      | PyLong z => ret (if (z =? 0)%Z then 0 else 1)%Z
      | PyFloat d => ret (if dbl_is_zero d then 0 else 1)%Z
      | PyUnicode cps => ret (match cps with [] => 0 | _ => 1 end)%Z
      | PyExporter info => ret (if (bi_len info =? 0)%Z then 0 else 1)%Z
      | PyInstance _ NoSlot => ret 1%Z
      | PyInstance _ Raises => fail_with UserError (-1)%Z
      | PyInstance _ (Returns b) => ret (if b then 1 else 0)%Z
      | PyRefusing _ b => ret (if b then 1 else 0)%Z
      end
  end.

(** ** Shared objects *)

(** CPython keeps a single object for each [int] from -5 to 256, for the
    empty [str] and for each one-character Latin-1 [str].  They sit in the
    runtime's static storage; [shared_slot v] is the place reserved for the
    value [v]. *)
Definition shared_slot (v : pyval) : option positive :=
  match v with
  | PyLong z =>
      if ((-5 <=? z) && (z <=? 256))%Z then Some (Z.to_pos (z + 1006)) else None
  | PyUnicode [] => Some 1263%positive
  | PyUnicode [c] =>
      if (c <? 256)%N then Some (1263 + N.succ_pos c)%positive else None
  | _ => None
  end.

Definition same_value (v v' : pyval) : bool :=
  match v, v' with
  | PyLong z, PyLong z' => (z =? z')%Z
  | PyUnicode cps, PyUnicode cps' => bool_decide (cps = cps')
  | _, _ => false
  end.

(** The shared object of value [v], in a runtime that keeps one (a build
    without the cache keeps none). *)
Definition shared (v : pyval) (rt : runtime) : option positive :=
  match shared_slot v with
  | Some a =>
      match heap rt !! a with
      | Some o => if same_value v (ob_val o) then Some a else None
      | None => None
      end
  | None => None
  end.

(** A new reference to an object of value [v]: to the shared object when
    the runtime keeps one for [v] (its count goes up, nothing is
    allocated), to a new object otherwise. *)
Definition new_ref (v : pyval) : M ptr :=
  fun rt => match shared v rt with
            | Some a => (_ <- Py_INCREF a ;; ret (Npos a)) rt
            | None => alloc v rt
            end.

(** [PyLong_FromLongLong], [PyFloat_FromDouble], [PyUnicode_FromString]:
    a new reference, or the null pointer with the error indicator set.
    A [float] is always a new object. *)
Definition PyLong_FromLongLong (v : Z) : M ptr := new_ref (PyLong v).

Definition PyFloat_FromDouble (v : double) : M ptr := alloc (PyFloat v).

Definition PyUnicode_FromString (u : string) : M ptr :=
  match utf8_decode (c_str (bytes_of_string u)) with
  | Some cps => new_ref (PyUnicode cps)
  | None => fail_with UnicodeDecodeError NULL
  end.

(** [Py_True] and [Py_False] are the two [bool] objects of the runtime;
    [k] says where they live. *)
Record singletons := mkSingletons {
  Py_True  : positive;
  Py_False : positive
}.

(** [PyObject* PyBool_FromLong(long v)]: a new reference to [Py_True] or
    [Py_False], after the truth of [v]. *)
Definition PyBool_FromLong (k : singletons) (v : Z) : M ptr :=
  let a := if (v =? 0)%Z then Py_False k else Py_True k in
  _ <- Py_INCREF a ;;
  ret (Npos a).

(** ** The buffer protocol *)

Record Py_buffer := mkView {
  obj  : ptr;              (* the exporter, a new reference; NULL if none *)
  desc : buffer_info       (* buf, len, itemsize, ..., strides *)
}.

Definition PyBUF_WRITABLE : Z := 1.
Definition PyBUF_FORMAT : Z := 4.
Definition PyBUF_ND : Z := 8.
Definition PyBUF_STRIDES : Z := Z.lor 16 PyBUF_ND.

(** Whether an object of value [v] serves a buffer request with [flags]:
    it must be an exporter that does not refuse, and a writable view
    cannot be had of read-only memory. *)
Definition exports_buffer (v : pyval) (flags : Z) : bool :=
  match v with
  | PyExporter info => negb (Z.testbit flags 0 && negb (bi_readonly info =? 0)%Z)
  | _ => false
  end.

(** [int PyObject_GetBuffer(PyObject *exporter, Py_buffer *view, int flags)]:
    on success fills [view], takes a new reference on the exporter for
    [view->obj] and returns [0]; returns [-1] with the error indicator set
    when the object exports no buffer or cannot serve the request. *)
Definition PyObject_GetBuffer (exporter : ptr) (view : Py_buffer) (flags : Z)
  : M (Z * Py_buffer) :=
  match exporter with
  | N0 => fun _ => None
  | Npos a =>
      o <- deref a ;;
      match ob_val o with
      | PyExporter info =>
          if Z.testbit flags 0 && negb (bi_readonly info =? 0)%Z
          then fail_with BufferError ((-1)%Z, mkView NULL (desc view))
          else
            _ <- Py_INCREF a ;;
            fun rt => Some ((0%Z, mkView (Npos a) info), log (EvExport a) rt)
      | PyRefusing e _ => fail_with e ((-1)%Z, mkView NULL (desc view))
      | _ => fail_with TypeError ((-1)%Z, view)
      end
  end.

(** [void PyBuffer_Release(Py_buffer *view)]: gives the view back to the
    exporter and drops the reference held in [view->obj]; nothing when
    [view->obj] is null. *)
Definition PyBuffer_Release (view : Py_buffer) : M Py_buffer :=
  match obj view with
  | N0 => ret view
  | Npos a =>
      _ <- (fun rt => Some (tt, log (EvRelease a) rt)) ;;
      _ <- Py_DECREF a ;;
      ret (mkView NULL (desc view))
  end.

End CPython.
Import CPython.

(* ===================================================================== *)
(** * PyObjectPtr - RAII wrapper for PyObject* with ref counting          *)
(* ===================================================================== *)
Module PyObjectPtr.

(** The [PyObjectPtr] objects of a program, numbered in order of
    construction.  Slot [h] is [Some p] while object [h] is alive with
    [ptr_ = p], and [None] once its destructor has run.  The class has no
    copy constructor and no copy assignment (both deleted), so every
    object is made by one of the constructors below. *)
Record world := mkWorld {
  rt   : runtime;
  objs : list (option ptr)
}.

Definition ptr_ (w : world) (h : nat) : option ptr :=
  match objs w !! h with
  | Some (Some p) => Some p
  | _ => None
  end.

Definition set_ptr_ (h : nat) (p : ptr) (w : world) : world :=
  mkWorld (rt w) (<[h := Some p]> (objs w)).

Definition with_rt (w : world) (r : runtime) : world := mkWorld r (objs w).

(** [explicit PyObjectPtr(PyObject* p) noexcept : ptr_(p) {}]; the new
    object's number is returned. *)
Definition ctor (p : ptr) (w : world) : nat * world :=
  (length (objs w), mkWorld (rt w) (objs w ++ [Some p])).

(** [PyObjectPtr() noexcept : ptr_(nullptr) {}] *)
Definition ctor_default (w : world) : nat * world := ctor NULL w.

(** [static PyObjectPtr steal(PyObject* p)]: no INCREF. *)
Definition steal (p : ptr) (w : world) : nat * world := ctor p w.

(** [static PyObjectPtr borrow(PyObject* p)]: [Py_XINCREF(p)], then adopt. *)
Definition borrow (p : ptr) (w : world) : option (nat * world) :=
  match Py_XINCREF p (rt w) with
  | Some (_, r) => Some (ctor p (with_rt w r))
  | None => None
  end.

(** [~PyObjectPtr() { Py_XDECREF(ptr_); }] *)
Definition dtor (h : nat) (w : world) : option world :=
  match ptr_ w h with
  | Some p =>
      match Py_XDECREF p (rt w) with
      | Some (_, r) => Some (mkWorld r (<[h := None]> (objs w)))
      | None => None
      end
  | None => None
  end.

(** [PyObjectPtr(PyObjectPtr&& other)]: take [other.ptr_], null the source. *)
Definition move_ctor (other : nat) (w : world) : option (nat * world) :=
  match ptr_ w other with
  | Some p => Some (ctor p (set_ptr_ other NULL w))
  | None => None
  end.

(** [operator=(PyObjectPtr&& other)] *)
Definition move_assign (this other : nat) (w : world) : option world :=
  match ptr_ w this, ptr_ w other with
  | Some p, Some q =>
      if decide (this = other) then Some w
      else
        match Py_XDECREF p (rt w) with
        | Some (_, r) => Some (set_ptr_ other NULL (set_ptr_ this q (with_rt w r)))
        | None => None
        end
  | _, _ => None
  end.

(** [PyObject* get() const] *)
Definition get (h : nat) (w : world) : option ptr := ptr_ w h.

(** [explicit operator bool() const] *)
Definition to_bool (h : nat) (w : world) : option bool :=
  match ptr_ w h with
  | Some p => Some (negb (N.eqb p NULL))
  | None => None
  end.

(** [PyObject* release()] *)
Definition release (h : nat) (w : world) : option (ptr * world) :=
  match ptr_ w h with
  | Some p => Some (p, set_ptr_ h NULL w)
  | None => None
  end.

(** [void reset(PyObject* p = nullptr)] *)
Definition reset (h : nat) (p : ptr) (w : world) : option world :=
  match ptr_ w h with
  | Some old =>
      match Py_XDECREF old (rt w) with
      | Some (_, r) => Some (set_ptr_ h p (with_rt w r))
      | None => None
      end
  | None => None
  end.

(** The pointers reference counting is defined on: null, or the address
    of an object. *)
Definition valid_ptr (r : runtime) (p : ptr) : bool :=
  match p with
  | N0 => true
  | Npos a => match heap r !! a with Some _ => true | None => false end
  end.

(** ** Programs over handles *)

Inductive op :=
  | Default
  | Steal (p : ptr)
  | Borrow (p : ptr)
  | MoveCtor (other : nat)
  | MoveAssign (this other : nat)
  | Release (h : nat)
  | Reset (h : nat) (p : ptr)
  | Dtor (h : nat).

(** A count changing hands between the handles and the code around them:
    [Took p] when a handle adopts a count its caller held ([steal], the
    converting constructor, [reset]); [Gave p] when [release] hands the
    count back. *)
Inductive xfer :=
  | NoXfer
  | Took (p : ptr)
  | Gave (p : ptr).

Definition exec (o : op) (w : world) : option (world * xfer) :=
  match o with
  | Default => Some ((ctor_default w).2, NoXfer)
  | Steal p => Some ((steal p w).2, Took p)
  | Borrow p => match borrow p w with Some (_, w') => Some (w', NoXfer) | None => None end
  | MoveCtor other =>
      match move_ctor other w with Some (_, w') => Some (w', NoXfer) | None => None end
  | MoveAssign this other =>
      match move_assign this other w with Some w' => Some (w', NoXfer) | None => None end
  | Release h =>
      match release h w with Some (p, w') => Some (w', Gave p) | None => None end
  | Reset h p =>
      match reset h p w with Some w' => Some (w', Took p) | None => None end
  | Dtor h =>
      match dtor h w with Some w' => Some (w', NoXfer) | None => None end
  end.

Fixpoint run (ops : list op) (w : world) : option (world * list xfer) :=
  match ops with
  | [] => Some (w, [])
  | o :: ops' =>
      match exec o w with
      | Some (w1, x) =>
          match run ops' w1 with
          | Some (w2, xs) => Some (w2, x :: xs)
          | None => None
          end
      | None => None
      end
  end.

(** Number of live handles whose [ptr_] is the object at [a]. *)
Definition holds (a : positive) (s : option ptr) : nat :=
  if decide (s = Some (Npos a)) then 1 else 0.





(** A small program: [borrow(o)], [steal(o)], move the first handle, release
    the second, destroy the third. *)
Definition demo_world : world :=
  mkWorld (mkRt {[ 1%positive := mkObj 1 PyNone ]} None 0 []) [].
Definition demo_ops : list op :=
  [Borrow 1%N; Steal 1%N; MoveCtor 0; Release 1; Dtor 2].

(** A pointer to an object that is in use: null, or the address of an
    object whose count is not zero. *)
Definition live_ptr (r : runtime) (p : ptr) : bool :=
  match p with
  | N0 => true
  | Npos a =>
      match heap r !! a with
      | Some o => negb (ob_refcnt o =? 0)%Z
      | None => false
      end
  end.

Definition is_null (s : option ptr) : bool :=
  match s with
  | Some N0 => true
  | _ => false
  end.

(** Operations that have no count to add or drop: the constructors that
    only store their argument, [release], move construction, self
    assignment, and whatever would [Py_XINCREF] or [Py_XDECREF] a null
    pointer. *)
Definition quiet_op (o : op) (w : world) : bool :=
  match o with
  | Default | Steal _ | MoveCtor _ | Release _ => true
  | Borrow p => is_null (Some p)
  | MoveAssign this other => bool_decide (this = other) || is_null (ptr_ w this)
  | Reset h _ | Dtor h => is_null (ptr_ w h)
  end.

Fixpoint all_quiet (ops : list op) (w : world) : bool :=
  match ops with
  | [] => true
  | o :: ops' =>
      quiet_op o w &&
      match exec o w with
      | Some (w', _) => all_quiet ops' w'
      | None => true
      end
  end.

(** Whether [o] names only handles that are alive in [w]. *)
Definition on_live_handles (o : op) (w : world) : bool :=
  match o with
  | Default | Steal _ | Borrow _ => true
  | MoveCtor h | Release h | Reset h _ | Dtor h => bool_decide (is_Some (ptr_ w h))
  | MoveAssign this other =>
      bool_decide (is_Some (ptr_ w this)) && bool_decide (is_Some (ptr_ w other))
  end.

End PyObjectPtr.

(* ===================================================================== *)
(** * ScopeGuard - execute cleanup on scope exit                          *)
(* ===================================================================== *)
Module ScopeGuard.

Section Guard.

(** [W]: the state the cleanup action works on.  [E]: what C++ code can
    throw. *)
Variable W : Type.
Variable E : Type.

(** How a piece of C++ code ends: it returns, or it throws (having done
    part of its work). *)
Inductive outcome (S : Type) :=
  | Returned (s : S)
  | Threw (e : E) (s : S).
Arguments Returned {S} s.
Arguments Threw {S} e s.

(** [F]: a callable taking no argument. *)
Definition action : Type := W -> outcome W.

(** What is left in a callable after [std::move] took its contents: some
    callable, unspecified. *)
Variable moved_from : action -> action.

Record ScopeGuard := mkGuard {
  cleanup_ : action;
  active_  : bool
}.

(** The guards of a program, numbered in order of construction ([None]:
    destroyed), the state the actions work on, and the actions invoked so
    far, oldest first. *)
Record machine := mkMachine {
  world  : W;
  ran    : list action;
  guards : list (option ScopeGuard)
}.

Definition guard (m : machine) (g : nat) : option ScopeGuard :=
  match guards m !! g with
  | Some (Some sg) => Some sg
  | _ => None
  end.

Definition set_guard (g : nat) (sg : option ScopeGuard) (m : machine) : machine :=
  mkMachine (world m) (ran m) (<[g := sg]> (guards m)).

(** [cleanup_()]: the call itself. *)
Definition call (f : action) (m : machine) : outcome machine :=
  match f (world m) with
  | Returned w' => Returned (mkMachine w' (ran m ++ [f]) (guards m))
  | Threw e w' => Threw e (mkMachine w' (ran m ++ [f]) (guards m))
  end.

(** [explicit ScopeGuard(F cleanup) noexcept
      : cleanup_(std::move(cleanup)), active_(true) {}] *)
Definition ctor (cleanup : action) (m : machine) : nat * machine :=
  (length (guards m),
   mkMachine (world m) (ran m) (guards m ++ [Some (mkGuard cleanup true)])).

(** [make_guard(F cleanup) { return ScopeGuard<F>(std::move(cleanup)); }]
    Where the returned temporary is not elided, the caller's guard is
    move-constructed from it and the temporary destroyed: [Move], then
    [Destroy], in the programs below. *)
Definition make_guard (cleanup : action) (m : machine) : nat * machine :=
  ctor cleanup m.

(** [~ScopeGuard() { if (active_) { try { cleanup_(); } catch (...) {} } }] *)
Definition dtor (g : nat) (m : machine) : option (outcome machine) :=
  match guard m g with
  | Some sg =>
      if active_ sg then
        match call (cleanup_ sg) m with
        | Returned m' => Some (Returned (set_guard g None m'))
        | Threw _ m' => Some (Returned (set_guard g None m'))   (* catch (...) {} *)
        end
      else Some (Returned (set_guard g None m))
  | None => None
  end.

(** [ScopeGuard(ScopeGuard&& other) noexcept
      : cleanup_(std::move(other.cleanup_)), active_(other.active_)
    { other.active_ = false; }] *)
Definition move_ctor (other : nat) (m : machine) : option (nat * machine) :=
  match guard m other with
  | Some sg =>
      let m1 := set_guard other (Some (mkGuard (moved_from (cleanup_ sg)) false)) m in
      Some (length (guards m1),
            mkMachine (world m1) (ran m1)
                      (guards m1 ++ [Some (mkGuard (cleanup_ sg) (active_ sg))]))
  | None => None
  end.

(** [void dismiss() noexcept { active_ = false; }] *)
Definition dismiss (g : nat) (m : machine) : option machine :=
  match guard m g with
  | Some sg => Some (set_guard g (Some (mkGuard (cleanup_ sg) false)) m)
  | None => None
  end.

(** ** Leaving a scope *)

(** How control leaves the scope that owns guard [g].  The destructor runs
    on the way out, whether the scope's body returned ([inflight = None])
    or threw ([inflight = Some e], stack unwinding).  [~ScopeGuard] is
    [noexcept] like every destructor that does not say otherwise, so an
    exception leaving it would end the program ([std::terminate]). *)
Inductive exit :=
  | Falls_through (m : machine)
  | Propagates (e : E) (m : machine)
  | Terminates.

Definition leave_scope (g : nat) (inflight : option E) (m : machine) : option exit :=
  match dtor g m with
  | Some (Returned m') =>
      Some (match inflight with
            | Some e => Propagates e m'
            | None => Falls_through m'
            end)
  | Some (Threw _ _) => Some Terminates
  | None => None
  end.

(** ** Programs over one guard and the guards moved out of it *)

Inductive op :=
  | Dismiss (g : nat)
  | Move (g : nat)
  | Destroy (g : nat).

Definition exec (o : op) (m : machine) : option machine :=
  match o with
  | Dismiss g => dismiss g m
  | Move g => match move_ctor g m with Some (_, m') => Some m' | None => None end
  | Destroy g =>
      match dtor g m with
      | Some (Returned m') => Some m'
      | _ => None
      end
  end.

Fixpoint run (ops : list op) (m : machine) : option machine :=
  match ops with
  | [] => Some m
  | o :: ops' =>
      match exec o m with
      | Some m' => run ops' m'
      | None => None
      end
  end.

(** [auto g = make_guard(cleanup);] in a fresh program. *)
Definition start (cleanup : action) (w : W) : machine :=
  (make_guard cleanup (mkMachine w [] [])).2.

Definition all_destroyed (m : machine) : Prop :=
  forall g, guard m g = None.

(** ** The contract, in the words of the specification *)

(** The pending cleanup is an obligation held by one guard at a time:
    moving the holder hands it to the new guard, dismissing the holder
    drops it for good, destroying the holder discharges it.  Operations on
    any other guard change nothing. *)
Inductive obligation :=
  | Pending (holder : nat)
  | Discharged
  | Dismissed.

Record contract := mkContract {
  obl  : obligation;
  made : nat                 (* guards constructed so far *)
}.

Definition contract_step (o : op) (c : contract) : contract :=
  match o, obl c with
  | Dismiss g, Pending h =>
      if decide (g = h) then mkContract Dismissed (made c) else c
  | Move g, Pending h =>
      if decide (g = h) then mkContract (Pending (made c)) (S (made c))
      else mkContract (obl c) (S (made c))
  | Move g, _ => mkContract (obl c) (S (made c))
  | Destroy g, Pending h =>
      if decide (g = h) then mkContract Discharged (made c) else c
  | _, _ => c
  end.

Definition contract_run (ops : list op) (c : contract) : contract :=
  fold_left (fun c o => contract_step o c) ops c.

Definition contract_start : contract := mkContract (Pending 0) 1.

(** No live guard is active, except those [P] allows. *)
Definition inert_except (P : nat -> Prop) (m : machine) : Prop :=
  forall g sg, guard m g = Some sg -> active_ sg = true -> P g.

(** The machine is where the contract says it is: the pending obligation
    sits in its holder as the action given at construction, and nowhere
    else; a discharged obligation has run that action once; a dismissed one
    has run nothing. *)
Definition agrees (cleanup : action) (m : machine) (c : contract) : Prop :=
  length (guards m) = made c /\
  match obl c with
  | Pending h =>
      ran m = [] /\ guard m h = Some (mkGuard cleanup true)
      /\ inert_except (fun g => g = h) m
  | Discharged => ran m = [cleanup] /\ inert_except (fun _ => False) m
  | Dismissed => ran m = [] /\ inert_except (fun _ => False) m
  end.

End Guard.

Arguments Returned {E S} s.
Arguments Threw {E S} e s.
Arguments mkGuard {W E} cleanup_ active_.
Arguments cleanup_ {W E} s.
Arguments active_ {W E} s.
Arguments mkMachine {W E} world ran guards.
Arguments world {W E} m.
Arguments ran {W E} m.
Arguments guards {W E} m.
Arguments guard {W E} m g.
Arguments set_guard {W E} g sg m.
Arguments call {W E} f m.
Arguments ctor {W E} cleanup m.
Arguments make_guard {W E} cleanup m.
Arguments dtor {W E} g m.
Arguments move_ctor {W E} moved_from other m.
Arguments dismiss {W E} g m.
Arguments Falls_through {W E} m.
Arguments Propagates {W E} e m.
Arguments Terminates {W E}.
Arguments leave_scope {W E} g inflight m.
Arguments exec {W E} moved_from o m.
Arguments run {W E} moved_from ops m.
Arguments start {W E} cleanup w.
Arguments all_destroyed {W E} m.
Arguments inert_except {W E} P m.
Arguments agrees {W E} cleanup m c.


(** A counter as the state, bumped by the cleanup action, which then
    throws. *)
Definition bump_and_throw : action nat unit := fun n => Threw tt (S n).
Definition bump : action nat unit := fun n => Returned (S n).
Definition forget : action nat unit -> action nat unit := fun _ n => Returned n.

(** The state an action leaves, whether it returned or threw. *)
Definition effect {W E : Type} (f : action W E) (w : W) : W :=
  match f w with
  | Returned w' => w'
  | Threw _ w' => w'
  end.

(** What the destructor of guard [g] has to run: its own action when it is
    active, nothing otherwise. *)
Definition pending {W E : Type} (m : machine W E) (g : nat) : list (action W E) :=
  match guard m g with
  | Some sg => if active_ sg then [cleanup_ sg] else []
  | None => []
  end.

(** Three guards in one scope: an active one, one whose action throws, and
    a dismissed one. *)
Definition three_guards : machine nat unit :=
  mkMachine 0 [] [Some (mkGuard bump true); Some (mkGuard bump_and_throw true);
                  Some (mkGuard bump false)].

End ScopeGuard.

(* ===================================================================== *)
(** * GILGuard / GILRelease - Python GIL management                       *)
(* ===================================================================== *)
Module GIL.

(** [PyGILState_Ensure], [PyGILState_Release], [PyEval_SaveThread] and
    [PyEval_RestoreThread] come from [<Python.h>] as well and are modelled
    after CPython. *)

(** The lock state as the calling thread sees it: whether the thread holds
    the interpreter lock, and its thread state's [gilstate_counter] (the
    number of [PyGILState_Ensure] calls not yet released, plus one when the
    thread state was not made by [PyGILState_Ensure]). *)
Record lock_state := mkLock {
  held             : bool;
  gilstate_counter : Z
}.

Definition NotHeld (l : lock_state) : Prop := held l = false.
Definition Held (l : lock_state) : Prop := held l = true.

(** States the runtime can be in: a thread that holds the lock has a
    thread state, whose counter is at least one. *)
Definition wf (l : lock_state) : Prop :=
  (0 <= gilstate_counter l)%Z /\ (held l = true -> (1 <= gilstate_counter l)%Z).

(** How a call into the runtime ends.  The interpreter lock is not
    recursive: a thread that takes it while holding it waits for itself. *)
Inductive result (A : Type) :=
  | Done (a : A)
  | Deadlock
  | Fatal.
Arguments Done {A} a.
Arguments Deadlock {A}.
Arguments Fatal {A}.

Definition and_then {A B} (r : result A) (k : A -> result B) : result B :=
  match r with
  | Done a => k a
  | Deadlock => Deadlock
  | Fatal => Fatal
  end.

Inductive PyGILState_STATE :=
  | PyGILState_LOCKED
  | PyGILState_UNLOCKED.

(** [PyThreadState*]: the thread has one thread state, so the pointer
    carries no information here. *)
Definition PyThreadState_ptr : Type := unit.

Definition take_gil (l : lock_state) : result lock_state :=
  if held l then Deadlock else Done (mkLock true (gilstate_counter l)).

(** [PyThreadState* PyEval_SaveThread()]: release the lock; a fatal error
    when the thread does not hold it. *)
Definition PyEval_SaveThread (l : lock_state) : result (PyThreadState_ptr * lock_state) :=
  if held l then Done (tt, mkLock false (gilstate_counter l)) else Fatal.

(** [void PyEval_RestoreThread(PyThreadState *tstate)]: take the lock. *)
Definition PyEval_RestoreThread (tstate : PyThreadState_ptr) (l : lock_state)
  : result lock_state :=
  take_gil l.

(** [PyGILState_STATE PyGILState_Ensure()]: take the lock unless the thread
    already holds it, count the call, and report how the lock was found. *)
Definition PyGILState_Ensure (l : lock_state) : result (PyGILState_STATE * lock_state) :=
  let current := held l in
  and_then (if current then Done l else PyEval_RestoreThread tt l) (fun l1 =>
  Done (if current then PyGILState_LOCKED else PyGILState_UNLOCKED,
        mkLock (held l1) (gilstate_counter l1 + 1))).

(** [void PyGILState_Release(PyGILState_STATE)]: a fatal error unless the
    thread holds the lock; uncount the call; give the lock up when the
    counter reaches zero (the thread state goes away) or when the matching
    [PyGILState_Ensure] had found it not held. *)
Definition PyGILState_Release (oldstate : PyGILState_STATE) (l : lock_state)
  : result lock_state :=
  if held l then
    let l1 := mkLock true (gilstate_counter l - 1) in
    if (gilstate_counter l1 =? 0)%Z then Done (mkLock false 0)
    else
      match oldstate with
      | PyGILState_UNLOCKED => and_then (PyEval_SaveThread l1) (fun r => Done r.2)
      | PyGILState_LOCKED => Done l1
      end
  else Fatal.

(** ** GILGuard *)

Record GILGuard := mkGILGuard { state_ : PyGILState_STATE }.

(** [GILGuard() : state_(PyGILState_Ensure()) {}] *)
Definition GILGuard_ctor (l : lock_state) : result (GILGuard * lock_state) :=
  and_then (PyGILState_Ensure l) (fun r => Done (mkGILGuard r.1, r.2)).

(** [~GILGuard() { PyGILState_Release(state_); }] *)
Definition GILGuard_dtor (g : GILGuard) (l : lock_state) : result lock_state :=
  PyGILState_Release (state_ g) l.

(** ** GILRelease *)

Record GILRelease := mkGILRelease { save_ : PyThreadState_ptr }.

(** [GILRelease() : save_(PyEval_SaveThread()) {}] *)
Definition GILRelease_ctor (l : lock_state) : result (GILRelease * lock_state) :=
  and_then (PyEval_SaveThread l) (fun r => Done (mkGILRelease r.1, r.2)).

(** [~GILRelease() { PyEval_RestoreThread(save_); }] *)
Definition GILRelease_dtor (g : GILRelease) (l : lock_state) : result lock_state :=
  PyEval_RestoreThread (save_ g) l.

(** [n] guards, each constructed in the scope of the one before and
    destroyed in reverse order:
    [{ GILGuard g1; { GILGuard g2; ... } }]. *)
Fixpoint nested_guards (n : nat) (l : lock_state) : result lock_state :=
  match n with
  | O => Done l
  | S k =>
      and_then (GILGuard_ctor l) (fun r =>
      and_then (nested_guards k r.2) (fun l2 =>
      GILGuard_dtor r.1 l2))
  end.

(** ** Scopes that mix the two guards *)

(** A block of code as far as the lock is concerned: code that constructs
    no guard, two blocks in sequence, a block under a [GILGuard]
    ([{ GILGuard g; body }]), a block under a [GILRelease]
    ([{ GILRelease r; body }]).  The guard is constructed on entry and
    destroyed when the body has ended. *)
Inductive block :=
  | Plain
  | Then (b1 b2 : block)
  | UnderGuard (body : block)
  | UnderRelease (body : block).

Fixpoint run_block (b : block) (l : lock_state) : result lock_state :=
  match b with
  | Plain => Done l
  | Then b1 b2 => and_then (run_block b1 l) (run_block b2)
  | UnderGuard body =>
      and_then (GILGuard_ctor l) (fun r =>
      and_then (run_block body r.2) (fun l2 =>
      GILGuard_dtor r.1 l2))
  | UnderRelease body =>
      and_then (GILRelease_ctor l) (fun r =>
      and_then (run_block body r.2) (fun l2 =>
      GILRelease_dtor r.1 l2))
  end.

(** Whether every [GILRelease] of [b] is constructed while the lock is
    held, when [b] is entered with the lock held ([h = true]) or not. *)
Fixpoint releases_while_held (h : bool) (b : block) : bool :=
  match b with
  | Plain => true
  | Then b1 b2 => releases_while_held h b1 && releases_while_held h b2
  | UnderGuard body => releases_while_held true body
  | UnderRelease body => h && releases_while_held false body
  end.

End GIL.

(* ===================================================================== *)
(** * NumpyBuffer - zero-copy access through the buffer protocol          *)
(* ===================================================================== *)
Module NumpyBuffer.

Record NumpyBuffer := mkBuf {
  view_  : Py_buffer;
  valid_ : bool
}.

(** The [NumpyBuffer] objects of a program, numbered in order of
    construction ([None]: destroyed).  Copy construction and copy
    assignment are deleted. *)
Record world := mkWorld {
  rt   : runtime;
  bufs : list (option NumpyBuffer)
}.

Definition buf (w : world) (h : nat) : option NumpyBuffer :=
  match bufs w !! h with
  | Some (Some b) => Some b
  | _ => None
  end.

Definition set_buf (h : nat) (b : option NumpyBuffer) (w : world) : world :=
  mkWorld (rt w) (<[h := b]> (bufs w)).

Definition push (b : NumpyBuffer) (r : runtime) (w : world) : nat * world :=
  (length (bufs w), mkWorld r (bufs w ++ [Some b])).

(** The request every view is made with. *)
Definition request_flags : Z := Z.lor PyBUF_STRIDES PyBUF_FORMAT.

(** A [Py_buffer] member is not initialised by the constructors beyond
    [view_.obj = nullptr]: [junk] stands for whatever the memory held. *)

(** [NumpyBuffer() noexcept : valid_(false) { view_.obj = nullptr; }] *)
Definition ctor_default (junk : buffer_info) (w : world) : nat * world :=
  push (mkBuf (mkView NULL junk) false) (rt w) w.

(** [explicit NumpyBuffer(PyObject* arr) noexcept : valid_(false) {
      view_.obj = nullptr;
      if (PyObject_GetBuffer(arr, &view_, PyBUF_STRIDES | PyBUF_FORMAT) == 0)
        valid_ = true; }] *)
Definition ctor (junk : buffer_info) (arr : ptr) (w : world) : option (nat * world) :=
  match PyObject_GetBuffer arr (mkView NULL junk) request_flags (rt w) with
  | Some ((rc, view), r) =>
      Some (push (mkBuf view (if (rc =? 0)%Z then true else false)) r w)
  | None => None
  end.

(** [~NumpyBuffer() { if (valid_) PyBuffer_Release(&view_); }] *)
Definition dtor (h : nat) (w : world) : option world :=
  match buf w h with
  | Some b =>
      if valid_ b then
        match PyBuffer_Release (view_ b) (rt w) with
        | Some (_, r) => Some (mkWorld r (<[h := None]> (bufs w)))
        | None => None
        end
      else Some (set_buf h None w)
  | None => None
  end.

(** What the moves leave in [other]: [valid_ = false], [view_.obj = nullptr]. *)
Definition moved_out (b : NumpyBuffer) : NumpyBuffer :=
  mkBuf (mkView NULL (desc (view_ b))) false.

(** [NumpyBuffer(NumpyBuffer&& other) noexcept
      : view_(other.view_), valid_(other.valid_)
    { other.valid_ = false; other.view_.obj = nullptr; }] *)
Definition move_ctor (other : nat) (w : world) : option (nat * world) :=
  match buf w other with
  | Some b =>
      Some (push (mkBuf (view_ b) (valid_ b)) (rt w) (set_buf other (Some (moved_out b)) w))
  | None => None
  end.

(** [operator=(NumpyBuffer&& other)] *)
Definition move_assign (this other : nat) (w : world) : option world :=
  match buf w this, buf w other with
  | Some bt, Some bo =>
      if decide (this = other) then Some w
      else
        let adopt (r : runtime) :=
          set_buf other (Some (moved_out bo))
            (set_buf this (Some (mkBuf (view_ bo) (valid_ bo))) (mkWorld r (bufs w))) in
        if valid_ bt then
          match PyBuffer_Release (view_ bt) (rt w) with
          | Some (_, r) => Some (adopt r)
          | None => None
          end
        else Some (adopt (rt w))
  | _, _ => None
  end.

(** [bool valid() const], [void* data() const], [Py_ssize_t size() const],
    [Py_ssize_t itemsize() const] *)
Definition valid (h : nat) (w : world) : option bool := valid_ <$> buf w h.
Definition data (h : nat) (w : world) : option N := (fun b => bi_buf (desc (view_ b))) <$> buf w h.
Definition size (h : nat) (w : world) : option Z := (fun b => bi_len (desc (view_ b))) <$> buf w h.
Definition itemsize (h : nat) (w : world) : option Z :=
  (fun b => bi_itemsize (desc (view_ b))) <$> buf w h.

(** ** Programs over buffers *)

Inductive op :=
  | Default (junk : buffer_info)
  | View (junk : buffer_info) (arr : ptr)
  | MoveCtor (other : nat)
  | MoveAssign (this other : nat)
  | Dtor (h : nat).

Definition exec (o : op) (w : world) : option world :=
  match o with
  | Default junk => Some (ctor_default junk w).2
  | View junk arr => snd <$> ctor junk arr w
  | MoveCtor other => snd <$> move_ctor other w
  | MoveAssign this other => move_assign this other w
  | Dtor h => dtor h w
  end.

Fixpoint run (ops : list op) (w : world) : option world :=
  match ops with
  | [] => Some w
  | o :: ops' =>
      match exec o w with
      | Some w' => run ops' w'
      | None => None
      end
  end.

Definition one_if (P : Prop) `{Decision P} : nat := if decide P then 1 else 0.









(** A world with one exporter, and a program that takes a view on it,
    moves the view twice and destroys every buffer. *)
Definition demo_info : buffer_info := mkInfo 4096 24 8 0 1 "d" [3%Z] [8%Z].
Definition demo_junk : buffer_info := mkInfo 0 0 0 0 0 "" [] [].
Definition demo_world : world :=
  mkWorld (mkRt {[ 1%positive := mkObj 1 (PyExporter demo_info);
                   2%positive := mkObj 1 (PyLong 5) ]} None 0 []) [].
Definition demo_ops : list op :=
  [View demo_junk 1%N; MoveCtor 0; Default demo_junk; MoveAssign 2 1;
   Dtor 0; Dtor 1; Dtor 2].

(** An exporter that refuses every request, met while [MemoryError] is
    pending. *)
Definition refusing_world : world :=
  mkWorld (mkRt {[ 1%positive := mkObj 1 (PyRefusing BufferError true) ]}
                (Some MemoryError) 0 []) [].

(** [Py_ssize_t ndim() const], [Py_ssize_t* shape() const],
    [Py_ssize_t* strides() const], [const char* format() const],
    [bool readonly() const { return view_.readonly != 0; }] and
    [T* as() const { return static_cast<T*>(view_.buf); }] (the same
    address, at another type). *)
Definition ndim (h : nat) (w : world) : option Z :=
  (fun b => bi_ndim (desc (view_ b))) <$> buf w h.
Definition shape (h : nat) (w : world) : option (list Z) :=
  (fun b => bi_shape (desc (view_ b))) <$> buf w h.
Definition strides (h : nat) (w : world) : option (list Z) :=
  (fun b => bi_strides (desc (view_ b))) <$> buf w h.
Definition format (h : nat) (w : world) : option string :=
  (fun b => bi_format (desc (view_ b))) <$> buf w h.
Definition readonly (h : nat) (w : world) : option bool :=
  (fun b => negb (bi_readonly (desc (view_ b)) =? 0)%Z) <$> buf w h.
Definition as_ (h : nat) (w : world) : option N :=
  (fun b => bi_buf (desc (view_ b))) <$> buf w h.

(** Everything the accessors other than [valid()] report of buffer [h]. *)
Record readout := mkReadout {
  r_data : N; r_size : Z; r_itemsize : Z; r_ndim : Z;
  r_shape : list Z; r_strides : list Z; r_format : string;
  r_readonly : bool; r_as : N
}.

Definition read (h : nat) (w : world) : option readout :=
  mbind (fun d => mbind (fun s => mbind (fun i => mbind (fun n =>
  mbind (fun sh => mbind (fun st => mbind (fun f => mbind (fun ro =>
  mbind (fun a => Some (mkReadout d s i n sh st f ro a))
    (as_ h w)) (readonly h w)) (format h w)) (strides h w)) (shape h w))
    (ndim h w)) (itemsize h w)) (size h w)) (data h w).

(** What the accessors report of a view with descriptor [info]. *)
Definition readout_of (info : buffer_info) : readout :=
  mkReadout (bi_buf info) (bi_len info) (bi_itemsize info) (bi_ndim info)
            (bi_shape info) (bi_strides info) (bi_format info)
            (negb (bi_readonly info =? 0)%Z) (bi_buf info).

(** [valid_] says whether [view_.obj] is set. *)
Definition coherent (b : NumpyBuffer) : bool :=
  eqb (valid_ b) (negb (N.eqb (obj (view_ b)) NULL)).

Definition slot_coherent (s : option NumpyBuffer) : Prop :=
  match s with
  | Some b => coherent b = true
  | None => True
  end.

Definition all_coherent (w : world) : Prop := Forall slot_coherent (bufs w).

End NumpyBuffer.

(* ===================================================================== *)
(** * Type converters - Python <-> C                                      *)
(* ===================================================================== *)
Module Converters.

(** [inline long long py_to_long(PyObject* obj)
      { return PyLong_AsLongLong(obj); }] *)
Definition py_to_long (obj : ptr) : M Z := PyLong_AsLongLong obj.

(** [inline double py_to_double(PyObject* obj) {
      if (PyFloat_Check(obj)) return PyFloat_AsDouble(obj);
      else if (PyLong_Check(obj))
        return static_cast<double>(PyLong_AsLongLong(obj));
      return 0.0; }] *)
Definition py_to_double (obj : ptr) : M double :=
  is_float <- PyFloat_Check obj ;;
  if is_float then PyFloat_AsDouble obj
  else
    is_long <- PyLong_Check obj ;;
    if is_long then
      v <- PyLong_AsLongLong obj ;;
      ret (double_of_Z v)
    else ret dbl_zero.

(** [inline const char* py_to_string(PyObject* obj)
      { return PyUnicode_AsUTF8(obj); }] *)
Definition py_to_string (obj : ptr) : M (option string) := PyUnicode_AsUTF8 obj.

(** [inline bool py_to_bool(PyObject* obj)
      { return PyObject_IsTrue(obj) != 0; }] *)
Definition py_to_bool (obj : ptr) : M bool :=
  t <- PyObject_IsTrue obj ;;
  ret (negb (t =? 0)%Z).

(** [inline PyObject* long_to_py(long long val)],
    [inline PyObject* double_to_py(double val)],
    [inline PyObject* string_to_py(const char* val)]: new references. *)
Definition long_to_py (val : Z) : M ptr := PyLong_FromLongLong val.
Definition double_to_py (val : double) : M ptr := PyFloat_FromDouble val.
Definition string_to_py (val : string) : M ptr := PyUnicode_FromString val.

(** The objects [py_to_double] tells apart. *)
Definition integer_like (v : pyval) : bool :=
  match v with PyLong _ | PyBool _ => true | _ => false end.
Definition float_like (v : pyval) : bool :=
  match v with PyFloat _ => true | _ => false end.

(** The value an integer-like object carries. *)
Definition int_value (v : pyval) : Z :=
  match v with
  | PyLong z => z
  | PyBool true => 1
  | _ => 0
  end.

(** Objects the runtime can make an integer of: [int]s and objects with an
    [__index__] slot. *)
Definition has_index (v : pyval) : bool :=
  match v with
  | PyLong _ | PyBool _ => true
  | PyInstance NoSlot _ => false
  | PyInstance _ _ => true
  | _ => false
  end.

(** The double literal [3.14]: the quotient of 314 by 100, rounded to
    nearest. *)
Definition dbl_3_14 : double :=
  Eval vm_compute in SFdiv dbl_prec dbl_emax (double_of_Z 314) (double_of_Z 100).

(** A runtime with a [str], an [int] too large for [long long], an object
    whose truth test raises, and a small [int]. *)
Definition demo_rt : runtime :=
  mkRt {[ 1%positive := mkObj 1 (PyUnicode [120%N]);
          2%positive := mkObj 1 (PyLong (2 ^ 63));
          3%positive := mkObj 1 (PyInstance NoSlot Raises);
          4%positive := mkObj 1 (PyLong 7) ]} None 3 [].

(** [inline PyObject* bool_to_py(bool val)
      { return PyBool_FromLong(val ? 1 : 0); }] *)
Definition bool_to_py (k : singletons) (val : bool) : M ptr :=
  PyBool_FromLong k (if val then 1 else 0)%Z.

(** The two [bool] objects are where [k] says. *)
Definition singletons_at (k : singletons) (r : runtime) : bool :=
  match heap r !! Py_True k, heap r !! Py_False k with
  | Some t, Some f =>
      match ob_val t, ob_val f with
      | PyBool true, PyBool false => true
      | _, _ => false
      end
  | _, _ => false
  end.

Definition valid_utf8 (s : string) : bool :=
  match utf8_decode (c_str (bytes_of_string s)) with
  | Some _ => true
  | None => false
  end.


(** A text with a two-byte UTF-8 sequence (U+00EF). *)
Definition naive : string :=
  String (Ascii.ascii_of_nat 110) (String (Ascii.ascii_of_nat 97) (String (Ascii.ascii_of_nat 195) (String (Ascii.ascii_of_nat 175)
    (String (Ascii.ascii_of_nat 118) (String (Ascii.ascii_of_nat 101) EmptyString))))).

(** A runtime that keeps the shared [int] 42 and the shared empty [str],
    both in use elsewhere, and has no memory left. *)
Definition shared_rt : runtime :=
  mkRt {[ 1048%positive := mkObj 3 (PyLong 42);
          1263%positive := mkObj 5 (PyUnicode []) ]} None 0 [].


End Converters.

(* ===================================================================== *)
(** * The runtime: reference counts and traffic                           *)
(* ===================================================================== *)
Module CPythonTheory.

Lemma refcnt_INCREF a b r r' :
  Py_INCREF a r = Some (tt, r') ->
  refcnt r' b = (refcnt r b + if decide (a = b) then 1 else 0)%Z.
Proof.
  unfold Py_INCREF, refcnt. destruct (heap r !! a) as [o|] eqn:Ha; [|discriminate].
  intros [= <-]. simpl. case_decide as Hab.
  - subst b. rewrite lookup_insert_eq, Ha. reflexivity.
  - rewrite lookup_insert_ne by exact Hab. lia.
Qed.

Lemma refcnt_DECREF a b r r' :
  Py_DECREF a r = Some (tt, r') ->
  refcnt r' b = (refcnt r b - if decide (a = b) then 1 else 0)%Z.
Proof.
  unfold Py_DECREF, refcnt. destruct (heap r !! a) as [o|] eqn:Ha; [|discriminate].
  intros [= <-]. cbv zeta. simpl.
  destruct (ob_refcnt o - 1 =? 0)%Z eqn:Hz; case_decide as Hab.
  - subst b. rewrite lookup_delete_eq, Ha. simpl. apply Z.eqb_eq in Hz. lia.
  - rewrite lookup_delete_ne by exact Hab. lia.
  - subst b. rewrite lookup_insert_eq, Ha. reflexivity.
  - rewrite lookup_insert_ne by exact Hab. lia.
Qed.

(** The last reference gone, the object is gone. *)
Lemma DECREF_last a r r' o :
  heap r !! a = Some o -> ob_refcnt o = 1%Z ->
  Py_DECREF a r = Some (tt, r') -> heap r' !! a = None.
Proof.
  intros Ha H1. unfold Py_DECREF. rewrite Ha, H1. intros [= <-]. simpl.
  apply lookup_delete_eq.
Qed.



(** The conversions on a few values. *)
Example double_of_Z_small : double_of_Z 7 = S754_finite false 7881299347898368 (-50).
Proof. reflexivity. Qed.

Example double_of_Z_ties_to_even : double_of_Z (2 ^ 53 + 1) = double_of_Z (2 ^ 53).
Proof. reflexivity. Qed.

Example utf8_decode_two_bytes : utf8_decode [195; 169]%N = Some [233%N].
Proof. reflexivity. Qed.

Example utf8_decode_rejects_overlong : utf8_decode [192; 128]%N = None.
Proof. reflexivity. Qed.

Example utf8_decode_rejects_surrogate : utf8_decode [237; 160; 128]%N = None.
Proof. reflexivity. Qed.

Example utf8_three_bytes_back_and_forth :
  utf8_encode [8364%N] = Some [226; 130; 172]%N
  /\ utf8_decode [226; 130; 172]%N = Some [8364%N].
Proof. split; reflexivity. Qed.

End CPythonTheory.
(* ===================================================================== *)
(** * PyObjectPtr: reference counts and ownership                         *)
(* ===================================================================== *)
Module PyObjectPtrTheory.
Import PyObjectPtr CPythonTheory.

(** ** Reference counts under the runtime's macros *)

Lemma holds_null a : holds a (Some NULL) = 0.
Proof. reflexivity. Qed.



Lemma refcnt_XDECREF p b r u r' :
  Py_XDECREF p r = Some (u, r') ->
  refcnt r' b = (refcnt r b - Z.of_nat (holds b (Some p)))%Z.
Proof.
  destruct u, p as [|a]; simpl.
  - intros [= <-]. rewrite holds_null. lia.
  - intros H. rewrite (refcnt_DECREF _ b _ _ H). unfold holds.
    destruct (decide (a = b)), (decide (Some (N.pos a) = Some (N.pos b)));
      try congruence; reflexivity.
Qed.

(** ** Counting owners *)



Lemma ptr__lookup w h p : ptr_ w h = Some p -> objs w !! h = Some (Some p).
Proof.
  unfold ptr_. destruct (objs w !! h) as [[q|]|]; intros [=]; subst; reflexivity.
Qed.





(** ** What each method does to the handles *)

Lemma ptr__live w h p : ptr_ w h = Some p -> h < length (objs w).
Proof. intros H. apply ptr__lookup in H. eapply lookup_lt_Some, H. Qed.

Lemma ptr__set_eq w h p q : ptr_ w h = Some q -> ptr_ (set_ptr_ h p w) h = Some p.
Proof.
  intros H. unfold ptr_, set_ptr_. simpl.
  rewrite list_lookup_insert_eq by (eapply ptr__live, H). reflexivity.
Qed.

Lemma ptr__set_ne w h h' p : h <> h' -> ptr_ (set_ptr_ h p w) h' = ptr_ w h'.
Proof.
  intros H. unfold ptr_, set_ptr_. simpl.
  rewrite list_lookup_insert_ne by exact H. reflexivity.
Qed.

Lemma ptr__ctor_new w p : ptr_ (ctor p w).2 (ctor p w).1 = Some p.
Proof.
  unfold ptr_, ctor. simpl. rewrite lookup_app_r by lia.
  rewrite Nat.sub_diag. reflexivity.
Qed.



Lemma XDECREF_defined r p :
  valid_ptr r p = true -> exists r', Py_XDECREF p r = Some (tt, r').
Proof.
  destruct p as [|a]; simpl; [eauto|].
  unfold Py_DECREF. destruct (heap r !! a); [eauto | discriminate].
Qed.




(** C10. [reset(p)] on a live handle decrements the pointer held before
    (when it is not null) and then stores [p]; it never compares [p] with
    the old pointer.  Afterwards [get()] is [p], no other handle changed,
    and when [p] is the pointer already held the object has lost one count
    although the handle still holds it (if that was its last count, the
    handle now points at a freed object). *)
Theorem reset_decrements_then_stores h old p w :
  get h w = Some old ->
  valid_ptr (rt w) old = true ->
  exists w',
    reset h p w = Some w' /\
    get h w' = Some p /\
    (forall h', h' <> h -> get h' w' = get h' w) /\
    (forall a, refcnt (rt w') a
               = (refcnt (rt w) a - Z.of_nat (holds a (Some old)))%Z) /\
    (forall a, old = Npos a -> p = old ->
               refcnt (rt w') a = (refcnt (rt w) a - 1)%Z
               /\ get h w' = Some (Npos a)
               /\ (refcnt (rt w) a = 1%Z -> heap (rt w') !! a = None)).
Proof.
  intros Hp Hv. unfold get in *.
  destruct (XDECREF_defined _ _ Hv) as [r' E].
  unfold reset. rewrite Hp, E. eexists. split; [reflexivity|].
  assert (Hget : ptr_ (set_ptr_ h p (with_rt w r')) h = Some p).
  { apply (ptr__set_eq (with_rt w r') h p old). exact Hp. }
  assert (Hrc : forall a, refcnt (rt (set_ptr_ h p (with_rt w r'))) a
                = (refcnt (rt w) a - Z.of_nat (holds a (Some old)))%Z).
  { intros a. simpl. apply (refcnt_XDECREF _ _ _ _ _ E). }
  split; [exact Hget|]. split; [|split].
  - intros h' Hne. apply (ptr__set_ne (with_rt w r')). congruence.
  - exact Hrc.
  - intros a -> ->. split; [|split; [exact Hget|]].
    + rewrite Hrc. unfold holds. rewrite decide_True by reflexivity. lia.
    + intros H1. simpl in E, Hv |- *. unfold refcnt in H1.
      destruct (heap (rt w) !! a) as [o|] eqn:Ho; [|discriminate].
      eapply DECREF_last; [exact Ho | exact H1 | exact E].
Qed.

Lemma reset_decrements_then_stores_witness :
  exists w',
    reset 0 1%N (steal 1%N demo_world).2 = Some w' /\
    get 0 w' = Some 1%N /\
    refcnt (rt w') 1 = 0%Z.
Proof.
  destruct (reset_decrements_then_stores 0 1%N 1%N (steal 1%N demo_world).2)
    as (w' & Hr & Hg & _ & Hrc & _); [reflexivity | reflexivity |].
  exists w'. split; [exact Hr|]. split; [exact Hg|].
  rewrite Hrc. reflexivity.
Defined.

End PyObjectPtrTheory.

(* ===================================================================== *)
(** * NumpyBuffer: every view goes back to its exporter                    *)
(* ===================================================================== *)
Module NumpyBufferTheory.
Import NumpyBuffer CPythonTheory.





Lemma buf_lookup w h b : buf w h = Some b -> bufs w !! h = Some (Some b).
Proof.
  unfold buf. destruct (bufs w !! h) as [[x|]|]; intros [=]; subst; reflexivity.
Qed.

Lemma buf_live w h b : buf w h = Some b -> h < length (bufs w).
Proof. intros H. apply buf_lookup in H. eapply lookup_lt_Some, H. Qed.

Lemma buf_set_eq w h x : h < length (bufs w) -> buf (set_buf h x w) h = x.
Proof.
  intros H. unfold buf, set_buf. simpl.
  rewrite list_lookup_insert_eq by exact H. destruct x; reflexivity.
Qed.


Lemma buf_push_new w r b : buf (push b r w).2 (push b r w).1 = Some b.
Proof.
  unfold buf, push. simpl. rewrite lookup_app_r by lia.
  rewrite Nat.sub_diag. reflexivity.
Qed.





(** ** The two runtime calls *)

(** A request with [request_flags] on an object: either it is served (one
    more reference on the exporter, one export logged, the view names the
    exporter), or only the error indicator changes and the view keeps the
    [obj] it came with. *)
Lemma GetBuffer_effect a0 v r rc v' r' :
  PyObject_GetBuffer (Npos a0) v request_flags r = Some ((rc, v'), r') ->
  obj v = NULL ->
  exists o, heap r !! a0 = Some o /\
    ((exports_buffer (ob_val o) request_flags = true /\ rc = 0%Z /\
      obj v' = Npos a0 /\
      (exists info, ob_val o = PyExporter info /\ desc v' = info) /\
      trace r' = trace r ++ [EvExport a0] /\
      err r' = err r /\ mem_left r' = mem_left r /\
      forall b, refcnt r' b = (refcnt r b + Z.of_nat (one_if (a0 = b)))%Z)
     \/
     (exports_buffer (ob_val o) request_flags = false /\ rc = (-1)%Z /\
      v' = v /\ exists e, r' = set_err e r)).
Proof.
  unfold PyObject_GetBuffer, bind, deref.
  destruct (heap r !! a0) as [o|] eqn:Ho; [|discriminate].
  intros H Hnull. exists o. split; [reflexivity|].
  destruct (ob_val o) as [| | | | |info| |] eqn:Hv;
    try (right; unfold fail_with in H; injection H as <- <- <-;
         repeat split; eauto; destruct v; simpl in Hnull; subst; reflexivity).
  left. change (Z.testbit request_flags 0) with false in H. simpl in H.
  unfold Py_INCREF in H. rewrite Ho in H. injection H as <- <- <-.
  repeat split; eauto.
  intros b. unfold refcnt, one_if. simpl. case_decide as Hab.
  - subst b. rewrite lookup_insert_eq, Ho. reflexivity.
  - rewrite lookup_insert_ne by exact Hab. lia.
Qed.



Lemma ctor_inv junk arr w h w' :
  ctor junk arr w = Some (h, w') ->
  exists rc v,
    PyObject_GetBuffer arr (mkView NULL junk) request_flags (rt w) = Some ((rc, v), rt w')
    /\ h = length (bufs w)
    /\ bufs w' = bufs w ++ [Some (mkBuf v (if (rc =? 0)%Z then true else false))].
Proof.
  unfold ctor.
  destruct (PyObject_GetBuffer arr (mkView NULL junk) request_flags (rt w))
    as [[[rc v] r]|]; [|discriminate].
  intros H. apply (inj Some) in H. unfold push in H.
  pose proof (f_equal fst H) as H1. pose proof (f_equal snd H) as H2.
  cbn [fst snd] in H1, H2. subst h w'. exists rc, v. repeat split.
Qed.

(** ** The balance every operation keeps *)









Lemma mkBuf_eta b : mkBuf (view_ b) (valid_ b) = b.
Proof. destruct b; reflexivity. Qed.

Lemma dtor_invalid h w b :
  buf w h = Some b -> valid_ b = false ->
  exists w', dtor h w = Some w' /\ rt w' = rt w /\ buf w' h = None.
Proof.
  intros Hb Hv. unfold dtor. rewrite Hb, Hv. eexists. split; [reflexivity|].
  split; [reflexivity|]. apply buf_set_eq. eapply buf_live, Hb.
Qed.

Lemma move_ctor_inv other w b :
  buf w other = Some b ->
  move_ctor other w
  = Some (push b (rt w) (set_buf other (Some (moved_out b)) w)).
Proof. intros Hb. unfold move_ctor. rewrite Hb, mkBuf_eta. reflexivity. Qed.



(** C6, as the code has it.  A [NumpyBuffer] constructed over an object
    that does not serve the request (it has no buffer interface, or its
    exporter refuses) is invalid: [valid()] is false and [view_.obj] is
    null.  The failed attempt leaves every object and every reference
    count as it was and causes no buffer traffic, and destroying the
    invalid buffer leaves the runtime exactly as it is (no release).  The
    attempt is not without effect, though: the exception raised by
    [PyObject_GetBuffer] stays in the error indicator, in place of
    whatever was there. *)
Theorem invalid_view_has_no_effect junk a o w :
  heap (rt w) !! a = Some o ->
  exports_buffer (ob_val o) request_flags = false ->
  exists h w',
    ctor junk (Npos a) w = Some (h, w')
    /\ valid h w' = Some false
    /\ buf w' h = Some (mkBuf (mkView NULL junk) false)
    /\ heap (rt w') = heap (rt w)
    /\ (forall b, refcnt (rt w') b = refcnt (rt w) b)
    /\ trace (rt w') = trace (rt w)
    /\ (exists e, rt w' = set_err e (rt w) /\ err (rt w') = Some e)
    /\ exists w'', dtor h w' = Some w'' /\ rt w'' = rt w' /\ buf w'' h = None.
Proof.
  intros Ho Hex.
  destruct (ctor junk (Npos a) w) as [[h w']|] eqn:Hc.
  - destruct (ctor_inv _ _ _ _ _ Hc) as (rc & v & Hg & Hh & Hb).
    destruct (GetBuffer_effect _ _ _ _ _ _ Hg eq_refl) as (o' & Ho' & [Hok|Hno]).
    + rewrite Ho in Ho'. injection Ho' as <-. destruct Hok as (Hex' & _).
      rewrite Hex in Hex'. discriminate.
    + destruct Hno as (_ & -> & -> & e & Hrt).
      assert (Hbuf : buf w' h = Some (mkBuf (mkView NULL junk) false)).
      { unfold buf. rewrite Hb, Hh. rewrite lookup_app_r by lia.
        rewrite Nat.sub_diag. reflexivity. }
      exists h, w'. split; [reflexivity|].
      split; [unfold valid; rewrite Hbuf; reflexivity|].
      split; [exact Hbuf|]. rewrite Hrt.
      split; [reflexivity|]. split; [reflexivity|]. split; [reflexivity|].
      split; [exists e; split; reflexivity|].
      rewrite <- Hrt. apply (dtor_invalid _ _ _ Hbuf eq_refl).
  - exfalso. unfold ctor, PyObject_GetBuffer, bind, deref in Hc. rewrite Ho in Hc.
    unfold exports_buffer in Hex.
    destruct (ob_val o); discriminate.
Qed.

Lemma invalid_view_has_no_effect_witness :
  exists h w',
    ctor demo_junk 2%N demo_world = Some (h, w')
    /\ valid h w' = Some false
    /\ refcnt (rt w') 2 = 1%Z.
Proof.
  destruct (invalid_view_has_no_effect demo_junk 2 (mkObj 1 (PyLong 5)) demo_world)
    as (h & w' & Hc & Hv & _ & _ & Hrc & _); [reflexivity | reflexivity |].
  exists h, w'. split; [exact Hc|]. split; [exact Hv|]. rewrite Hrc. reflexivity.
Defined.

(** Where C6 as stated fails: the failed construction has a side effect.
    Over an [int] it leaves [TypeError] in an error indicator that was
    clear; over an exporter that refuses, with an exception pending, it
    replaces that exception by the exporter's. *)
Lemma failed_view_sets_error :
  (exists h w',
      ctor demo_junk 2%N demo_world = Some (h, w')
      /\ valid h w' = Some false
      /\ err (rt demo_world) = None
      /\ err (rt w') = Some TypeError
      /\ rt w' <> rt demo_world)
  /\ (exists h w',
      ctor demo_junk 1%N refusing_world = Some (h, w')
      /\ valid h w' = Some false
      /\ err (rt refusing_world) = Some MemoryError
      /\ err (rt w') = Some BufferError
      /\ rt w' <> rt refusing_world).
Proof.
  split; eexists _, _; (split; [vm_compute; reflexivity|]);
    repeat split; try reflexivity; vm_compute; discriminate.
Qed.

End NumpyBufferTheory.

(* ===================================================================== *)
(** * ScopeGuard: the cleanup runs once, and never throws out              *)
(* ===================================================================== *)
Module ScopeGuardTheory.
Import ScopeGuard.

Section GuardFacts.

Context {W E : Type}.
Variable moved_from : action W E -> action W E.

Implicit Types (m : machine W E) (sg : ScopeGuard W E).

Lemma Returned_eq {S : Type} (a b : S) : @Returned E S a = Returned b -> a = b.
Proof. intros H. congruence. Qed.

Lemma guard_lookup m g sg : guard m g = Some sg -> guards m !! g = Some (Some sg).
Proof.
  unfold guard. destruct (guards m !! g) as [[x|]|]; intros [=]; subst; reflexivity.
Qed.

Lemma guard_live m g sg : guard m g = Some sg -> g < length (guards m).
Proof. intros H. apply guard_lookup in H. eapply lookup_lt_Some, H. Qed.

Lemma guard_set_eq m g x : g < length (guards m) -> guard (set_guard g x m) g = x.
Proof.
  intros H. unfold guard, set_guard. simpl.
  rewrite list_lookup_insert_eq by exact H. destruct x; reflexivity.
Qed.

Lemma guard_set_ne m g g' x : g <> g' -> guard (set_guard g x m) g' = guard m g'.
Proof.
  intros H. unfold guard, set_guard. simpl.
  rewrite list_lookup_insert_ne by exact H. reflexivity.
Qed.

Lemma guard_push m w r sg g :
  guard (mkMachine w r (guards m ++ [Some sg])) g
  = if decide (g = length (guards m)) then Some sg else guard m g.
Proof.
  unfold guard. simpl. case_decide as Hg.
  - subst g. rewrite lookup_app_r by lia. rewrite Nat.sub_diag. reflexivity.
  - destruct (decide (g < length (guards m))) as [Hlt|Hge].
    + rewrite lookup_app_l by exact Hlt. reflexivity.
    + rewrite !lookup_ge_None_2; [reflexivity | lia |].
      rewrite length_app. simpl. lia.
Qed.

(** What the destructor leaves behind, whichever way the action ended. *)
Lemma guard_dtor_inv g m o :
  dtor g m = Some o ->
  exists sg w',
    guard m g = Some sg /\
    o = Returned (mkMachine w'
                    (if active_ sg then ran m ++ [cleanup_ sg] else ran m)
                    (<[g := None]> (guards m))) /\
    (active_ sg = false -> w' = world m).
Proof.
  unfold dtor. destruct (guard m g) as [sg|] eqn:Hg; [|discriminate].
  destruct (active_ sg) eqn:Ha.
  - unfold call. destruct (cleanup_ sg (world m)) as [w'|e w']; intros [= <-];
      exists sg, w'; rewrite Ha; repeat split; try reflexivity; discriminate.
  - intros [= <-]. exists sg, (world m). rewrite Ha. repeat split; reflexivity.
Qed.

Lemma dtor_defined g m sg :
  guard m g = Some sg -> exists m', dtor g m = Some (Returned m').
Proof.
  intros Hg. unfold dtor. rewrite Hg. destruct (active_ sg); [|eauto].
  destruct (call (cleanup_ sg) m); eauto.
Qed.

Lemma length_set_guard m g x : length (guards (set_guard g x m)) = length (guards m).
Proof. unfold set_guard. simpl. apply length_insert. Qed.

(** Overwriting slot [g] with something inactive (or nothing) keeps the
    other guards as inert as they were. *)
Lemma inert_set (P : nat -> Prop) m g x :
  g < length (guards m) ->
  (forall sg, x = Some sg -> active_ sg = false) ->
  inert_except (fun y => y = g \/ P y) m ->
  inert_except P (set_guard g x m).
Proof.
  intros Hlt Hx HP g' sg' Hg' Ha. destruct (decide (g = g')) as [<-|Hne].
  - rewrite guard_set_eq in Hg' by exact Hlt. rewrite (Hx _ Hg') in Ha. discriminate.
  - rewrite guard_set_ne in Hg' by exact Hne.
    destruct (HP _ _ Hg' Ha) as [->|HPg]; [congruence | exact HPg].
Qed.

Lemma inert_push (P : nat -> Prop) m w r sg :
  (active_ sg = true -> P (length (guards m))) ->
  inert_except P m ->
  inert_except P (mkMachine w r (guards m ++ [Some sg])).
Proof.
  intros Hsg HP g' sg' Hg' Ha. rewrite guard_push in Hg'. case_decide as Hd.
  - injection Hg' as <-. subst g'. auto.
  - eapply HP; eassumption.
Qed.

Lemma inert_weaken (P Q : nat -> Prop) m :
  (forall g, P g -> Q g) -> inert_except P m -> inert_except Q m.
Proof. intros HPQ HP g sg Hg Ha. apply HPQ. eapply HP; eassumption. Qed.

Lemma inert_world (P : nat -> Prop) m w r :
  inert_except P m -> inert_except P (mkMachine w r (guards m)).
Proof. intros HP g sg Hg Ha. eapply HP; [exact Hg | exact Ha]. Qed.

Lemma exec_agrees cleanup o m m' c :
  agrees cleanup m c -> exec moved_from o m = Some m' ->
  agrees cleanup m' (contract_step o c).
Proof.
  intros [Hlen Hst] Hex. destruct o as [g|g|g]; cbn [exec] in Hex.
  - (* dismiss *)
    unfold dismiss in Hex. destruct (guard m g) as [sg|] eqn:Hg; [|discriminate].
    injection Hex as <-.
    assert (Hlt : g < length (guards m)) by (eapply guard_live, Hg).
    assert (Hoff : forall sg', Some (mkGuard (cleanup_ sg) false) = Some sg' ->
                               active_ sg' = false) by (intros sg' [= <-]; reflexivity).
    unfold contract_step. destruct (obl c) as [h| |] eqn:Ho.
    + destruct Hst as (Hr & Hh & Hi).
      case_decide as Hgh; (split; cbn [made obl]; [rewrite length_set_guard; exact Hlen|]).
      * split; [exact Hr|]. apply inert_set; [exact Hlt | exact Hoff |].
        eapply inert_weaken; [|exact Hi]. intros g' ->. left. symmetry. exact Hgh.
      * rewrite Ho. split; [exact Hr|]. split.
        -- rewrite guard_set_ne by exact Hgh. exact Hh.
        -- apply inert_set; [exact Hlt | exact Hoff |].
           eapply inert_weaken; [|exact Hi]. intros g' ->. right. reflexivity.
    + destruct Hst as (Hr & Hi).
      split; cbn [made obl]; [rewrite length_set_guard; exact Hlen|]. rewrite Ho.
      split; [exact Hr|]. apply inert_set; [exact Hlt | exact Hoff |].
      eapply inert_weaken; [|exact Hi]. intros g' [].
    + destruct Hst as (Hr & Hi).
      split; cbn [made obl]; [rewrite length_set_guard; exact Hlen|]. rewrite Ho.
      split; [exact Hr|]. apply inert_set; [exact Hlt | exact Hoff |].
      eapply inert_weaken; [|exact Hi]. intros g' [].
  - (* move construction *)
    unfold move_ctor in Hex. destruct (guard m g) as [sg|] eqn:Hg; [|discriminate].
    cbv beta iota zeta in Hex. apply (inj Some) in Hex. subst m'.
    assert (Hlt : g < length (guards m)) by (eapply guard_live, Hg).
    remember (set_guard g (Some (mkGuard (moved_from (cleanup_ sg)) false)) m) as m1
      eqn:Hm1.
    assert (Hl1 : length (guards m1) = made c).
    { rewrite Hm1, length_set_guard. exact Hlen. }
    assert (Hoff : forall sg', Some (mkGuard (moved_from (cleanup_ sg)) false) = Some sg' ->
                               active_ sg' = false) by (intros sg' [= <-]; reflexivity).
    assert (Hnew : length (guards m1 ++ [Some (mkGuard (cleanup_ sg) (active_ sg))])
                   = S (made c)).
    { rewrite length_app, Hl1. simpl. lia. }
    assert (Hran : ran m1 = ran m) by (rewrite Hm1; reflexivity).
    unfold contract_step. destruct (obl c) as [h| |] eqn:Ho.
    + destruct Hst as (Hr & Hh & Hi).
      case_decide as Hgh; (split; cbn [made obl guards ran]; [exact Hnew|]).
      * subst h. rewrite Hh in Hg. injection Hg as <-. rewrite Hran.
        split; [exact Hr|]. split.
        -- rewrite guard_push. rewrite decide_True by (symmetry; exact Hl1).
           reflexivity.
        -- apply inert_push; [intros _; exact Hl1|]. rewrite Hm1.
           apply inert_set; [exact Hlt | exact Hoff |].
           eapply inert_weaken; [|exact Hi]. intros g' ->. left. reflexivity.
      * rewrite ?Ho, Hran. split; [exact Hr|]. split.
        -- rewrite guard_push. rewrite decide_False by (rewrite Hl1, <- Hlen;
             apply guard_live in Hh; lia).
           rewrite Hm1, guard_set_ne by exact Hgh. exact Hh.
        -- apply inert_push.
           ++ intros Ha. exfalso. apply Hgh. eapply Hi; eassumption.
           ++ rewrite Hm1. apply inert_set; [exact Hlt | exact Hoff |].
              eapply inert_weaken; [|exact Hi]. intros g' ->. right. reflexivity.
    + destruct Hst as (Hr & Hi).
      split; cbn [made obl guards ran]; [exact Hnew|]. rewrite ?Ho, Hran.
      split; [exact Hr|]. apply inert_push.
      * intros Ha. eapply Hi; eassumption.
      * rewrite Hm1. apply inert_set; [exact Hlt | exact Hoff |].
        eapply inert_weaken; [|exact Hi]. intros g' [].
    + destruct Hst as (Hr & Hi).
      split; cbn [made obl guards ran]; [exact Hnew|]. rewrite ?Ho, Hran.
      split; [exact Hr|]. apply inert_push.
      * intros Ha. eapply Hi; eassumption.
      * rewrite Hm1. apply inert_set; [exact Hlt | exact Hoff |].
        eapply inert_weaken; [|exact Hi]. intros g' [].
  - (* destruction *)
    destruct (dtor g m) as [[m1|e m1]|] eqn:Hd; try discriminate.
    injection Hex as <-.
    destruct (guard_dtor_inv _ _ _ Hd) as (sg & w' & Hg & Hm1 & _).
    injection Hm1 as ->.
    assert (Hlt : g < length (guards m)) by (eapply guard_live, Hg).
    assert (Hoff : forall sg' : ScopeGuard W E, None = Some sg' -> active_ sg' = false)
      by (intros sg' [=]).
    assert (Hin : forall (P : nat -> Prop) r,
               inert_except (fun x => x = g \/ P x) m ->
               inert_except P (mkMachine w' r (<[g := None]> (guards m)))).
    { intros P r HP.
      apply (inert_set P (mkMachine w' r (guards m)) g None Hlt Hoff).
      apply inert_world. exact HP. }
    unfold contract_step. destruct (obl c) as [h| |] eqn:Ho.
    + destruct Hst as (Hr & Hh & Hi).
      case_decide as Hgh;
        (split; cbn [made obl guards ran]; [rewrite length_insert; exact Hlen|]).
      * subst h. rewrite Hh in Hg. injection Hg as <-. cbn [active_ cleanup_].
        rewrite Hr. split; [reflexivity|].
        apply Hin. eapply inert_weaken; [|exact Hi]. intros g' ->. left. reflexivity.
      * rewrite Ho. destruct (active_ sg) eqn:Ha;
          [exfalso; apply Hgh; eapply Hi; eassumption|].
        split; [exact Hr|]. split.
        -- change (guard (set_guard g None (mkMachine w' (ran m) (guards m))) h
                   = Some (mkGuard cleanup true)).
           rewrite guard_set_ne by exact Hgh. exact Hh.
        -- apply Hin. eapply inert_weaken; [|exact Hi]. intros g' ->. right. reflexivity.
    + destruct Hst as (Hr & Hi).
      split; cbn [made obl guards ran]; [rewrite length_insert; exact Hlen|]. rewrite Ho.
      destruct (active_ sg) eqn:Ha; [exfalso; eapply Hi; eassumption|].
      split; [exact Hr|].
      apply Hin. eapply inert_weaken; [|exact Hi]. intros g' [].
    + destruct Hst as (Hr & Hi).
      split; cbn [made obl guards ran]; [rewrite length_insert; exact Hlen|]. rewrite Ho.
      destruct (active_ sg) eqn:Ha; [exfalso; eapply Hi; eassumption|].
      split; [exact Hr|].
      apply Hin. eapply inert_weaken; [|exact Hi]. intros g' [].
Qed.

Lemma run_agrees cleanup ops : forall m m' c,
  agrees cleanup m c -> run moved_from ops m = Some m' ->
  agrees cleanup m' (contract_run ops c).
Proof.
  induction ops as [|o ops IH]; simpl; intros m m' c Hag Hrun.
  - injection Hrun as <-. exact Hag.
  - destruct (exec moved_from o m) as [m1|] eqn:He; [|discriminate].
    eapply IH; [|exact Hrun]. eapply exec_agrees; eassumption.
Qed.

Lemma start_agrees (cleanup : action W E) w :
  agrees cleanup (start cleanup w) contract_start.
Proof.
  split; [reflexivity|]. simpl. split; [reflexivity|]. split; [reflexivity|].
  intros [|g] sg Hg Ha; [reflexivity|].
  unfold guard in Hg. destruct g; simpl in Hg; discriminate.
Qed.

(** Once dropped or discharged, the obligation stays so. *)
Lemma contract_settled ops : forall c,
  (forall h, obl c <> Pending h) -> obl (contract_run ops c) = obl c.
Proof.
  unfold contract_run. induction ops as [|o ops IH]; simpl; intros c Hc; [reflexivity|].
  assert (Hs : obl (contract_step o c) = obl c).
  { unfold contract_step. destruct o, (obl c) eqn:Ho; try reflexivity;
      try (exfalso; eapply Hc; reflexivity); simpl; exact Ho. }
  rewrite IH; [exact Hs|]. intros h. rewrite Hs. apply Hc.
Qed.

Lemma contract_run_app ops1 ops2 c :
  contract_run (ops1 ++ ops2) c = contract_run ops2 (contract_run ops1 c).
Proof. unfold contract_run. apply fold_left_app. Qed.

Lemma agrees_at_most_once cleanup m c : agrees cleanup m c -> length (ran m) <= 1.
Proof.
  intros [_ H]. destruct (obl c); destruct H as [-> _]; simpl; lia.
Qed.

Lemma dismiss_inv g m m1 :
  dismiss g m = Some m1 ->
  exists sg, guard m g = Some sg /\
             m1 = set_guard g (Some (mkGuard (cleanup_ sg) false)) m.
Proof.
  unfold dismiss. destruct (guard m g) as [sg|]; [|discriminate].
  intros H. apply (inj Some) in H. eauto.
Qed.

(** Every operation is defined on a live guard. *)
Lemma exec_defined g m sg :
  guard m g = Some sg ->
  (exists m', exec moved_from (Dismiss g) m = Some m')
  /\ (exists m', exec moved_from (Move g) m = Some m')
  /\ (exists m', exec moved_from (Destroy g) m = Some m').
Proof.
  intros Hg. split; [|split]; cbn [exec].
  - unfold dismiss. rewrite Hg. eauto.
  - unfold move_ctor. rewrite Hg. cbv zeta. eauto.
  - destruct (dtor_defined g m sg Hg) as [m' ->]. eauto.
Qed.

Lemma dtor_inactive g m sg :
  guard m g = Some sg -> active_ sg = false ->
  exists m', dtor g m = Some (Returned m') /\ ran m' = ran m /\ world m' = world m.
Proof.
  intros Hg Ha. unfold dtor. rewrite Hg, Ha. eexists. repeat split; reflexivity.
Qed.

(** C2. From [make_guard(cleanup)] on, under any sequence of dismiss /
    move-construct / destroy operations on the guard and the guards moved
    out of it, the machine follows the contract: the cleanup action runs
    at most once, it runs exactly when the guard holding the obligation is
    destroyed, and it never runs once [dismiss()] was called on that
    guard.  So when every guard is gone the action has run exactly once,
    unless the holder was dismissed, in which case it has not run at all;
    and whatever comes after a dismissal or a discharge changes none of
    this.  Every operation is defined on a live guard.  [dismiss()] is
    idempotent, a dismissed guard's destructor runs
    nothing, and neither does the destructor of a moved-from guard. *)
Theorem scope_guard_runs_cleanup_once (cleanup : action W E) (w : W) ops m :
  run moved_from ops (start cleanup w) = Some m ->
  agrees cleanup m (contract_run ops contract_start)
  /\ length (ran m) <= 1
  /\ (all_destroyed m ->
      (obl (contract_run ops contract_start) = Discharged /\ ran m = [cleanup])
      \/ (obl (contract_run ops contract_start) = Dismissed /\ ran m = []))
  /\ (forall more m',
      run moved_from more m = Some m' ->
      (obl (contract_run ops contract_start) = Dismissed -> ran m' = [])
      /\ (obl (contract_run ops contract_start) = Discharged -> ran m' = [cleanup]))
  /\ (forall g sg, guard m g = Some sg ->
      forall o, In o [Dismiss g; Move g; Destroy g] ->
                exists m', exec moved_from o m = Some m')
  /\ (forall g m0 m1, dismiss g m0 = Some m1 -> dismiss g m1 = Some m1)
  /\ (forall g m0 m1,
      dismiss g m0 = Some m1 ->
      exists m2, dtor g m1 = Some (Returned m2)
                 /\ ran m2 = ran m1 /\ world m2 = world m1)
  /\ (forall g h m0 m1,
      move_ctor moved_from g m0 = Some (h, m1) ->
      exists m2, dtor g m1 = Some (Returned m2)
                 /\ ran m2 = ran m1 /\ world m2 = world m1).
Proof.
  intros Hrun.
  pose proof (run_agrees cleanup ops _ _ _ (start_agrees cleanup w) Hrun) as Hag.
  split; [exact Hag|]. split; [eapply agrees_at_most_once, Hag|].
  split; [|split; [|split; [|split; [|split]]]].
  - intros Hall. destruct Hag as [_ Hst].
    destruct (obl (contract_run ops contract_start)) as [h| |].
    + destruct Hst as (_ & Hh & _). rewrite Hall in Hh. discriminate.
    + left. split; [reflexivity | apply Hst].
    + right. split; [reflexivity | apply Hst].
  - intros more m' Hmore.
    pose proof (run_agrees cleanup more _ _ _ Hag Hmore) as [_ Hst'].
    split; intros Ho.
    + rewrite contract_settled in Hst' by (intros h; rewrite Ho; discriminate).
      rewrite Ho in Hst'. apply Hst'.
    + rewrite contract_settled in Hst' by (intros h; rewrite Ho; discriminate).
      rewrite Ho in Hst'. apply Hst'.
  - intros g sg Hg o Ho. destruct (exec_defined g m sg Hg) as (H1 & H2 & H3).
    simpl in Ho. destruct Ho as [<-|[<-|[<-|[]]]]; assumption.
  - intros g m0 m1 Hd. destruct (dismiss_inv _ _ _ Hd) as (sg & Hg & ->).
    unfold dismiss. rewrite guard_set_eq by (eapply guard_live, Hg).
    unfold set_guard. simpl. rewrite list_insert_insert_eq. reflexivity.
  - intros g m0 m1 Hd. destruct (dismiss_inv _ _ _ Hd) as (sg & Hg & ->).
    eapply (dtor_inactive _ _ (mkGuard (cleanup_ sg) false)); [|reflexivity].
    apply guard_set_eq. eapply guard_live, Hg.
  - intros g h m0 m1 Hmv. unfold move_ctor in Hmv.
    destruct (guard m0 g) as [sg|] eqn:Hg; [|discriminate].
    cbv beta iota zeta in Hmv. apply (inj Some) in Hmv.
    apply (f_equal snd) in Hmv. cbn [snd] in Hmv. subst m1.
    eapply (dtor_inactive _ _ (mkGuard (moved_from (cleanup_ sg)) false));
      [|reflexivity].
    rewrite guard_push. rewrite decide_False.
    + change (guard (set_guard g
                (Some (mkGuard (moved_from (cleanup_ sg)) false)) m0) g
              = Some (mkGuard (moved_from (cleanup_ sg)) false)).
      apply guard_set_eq. eapply guard_live, Hg.
    + simpl. rewrite length_insert. apply guard_live in Hg. lia.
Qed.

(** C3. Whatever the cleanup action does, throwing included, the
    destructor of a live guard returns: an exception raised by the action
    is caught and dropped (the action's effects and the fact that it ran
    remain).  Hence leaving the guard's scope while an exception [e] is in
    flight lets exactly [e] propagate, and leaving it normally falls
    through; the program is never terminated by a second exception. *)
Theorem scope_guard_dtor_swallows g (m : machine W E) sg :
  guard m g = Some sg ->
  (exists m', dtor g m = Some (Returned m')
              /\ guard m' g = None
              /\ ran m' = (if active_ sg then ran m ++ [cleanup_ sg] else ran m)
              /\ (forall e w', active_ sg = true ->
                     cleanup_ sg (world m) = Threw e w' -> world m' = w'))
  /\ (forall e, exists m', leave_scope g (Some e) m = Some (Propagates e m'))
  /\ (exists m', leave_scope g None m = Some (Falls_through m')).
Proof.
  intros Hg. destruct (dtor_defined g m sg Hg) as [m' Hd].
  split; [|split].
  - exists m'. split; [exact Hd|].
    destruct (guard_dtor_inv _ _ _ Hd) as (sg' & w' & Hg' & Hm' & _).
    rewrite Hg in Hg'. apply (inj Some) in Hg'. subst sg'. apply Returned_eq in Hm'.
    split; [|split].
    + rewrite Hm'.
      change (guard (set_guard g None
                (mkMachine w' (if active_ sg then ran m ++ [cleanup_ sg] else ran m)
                   (guards m))) g = None).
      apply guard_set_eq. eapply guard_live, Hg.
    + rewrite Hm'. reflexivity.
    + intros e w1 Ha Hthrow. unfold dtor in Hd. rewrite Hg, Ha in Hd.
      unfold call in Hd. rewrite Hthrow in Hd.
      apply (inj Some), Returned_eq in Hd. rewrite <- Hd. reflexivity.
  - intros e. exists m'. unfold leave_scope. rewrite Hd. reflexivity.
  - exists m'. unfold leave_scope. rewrite Hd. reflexivity.
Qed.

End GuardFacts.

Lemma scope_guard_runs_cleanup_once_witness :
  exists m,
    run forget [Move 0; Destroy 0; Move 1; Destroy 1; Destroy 2] (start bump 7) = Some m
    /\ ran m = [bump] /\ world m = 8.
Proof.
  eexists. split; [vm_compute; reflexivity|].
  split; [|reflexivity].
  destruct (scope_guard_runs_cleanup_once forget bump 7
              [Move 0; Destroy 0; Move 1; Destroy 1; Destroy 2] _ eq_refl)
    as (_ & _ & Hall & _).
  destruct Hall as [[_ Hr]|[Hc _]].
  - intros [|[|[|g]]]; reflexivity.
  - exact Hr.
  - vm_compute in Hc. discriminate.
Defined.

Lemma scope_guard_dtor_swallows_witness :
  exists m',
    leave_scope 0 (Some tt) (start bump_and_throw 7) = Some (Propagates tt m')
    /\ world m' = 8.
Proof.
  destruct (scope_guard_dtor_swallows 0 (start bump_and_throw 7)
              (mkGuard bump_and_throw true) eq_refl)
    as ((m' & Hd & _ & _ & Hw) & _ & _).
  exists m'. split.
  - unfold leave_scope. rewrite Hd. reflexivity.
  - apply (Hw tt 8); reflexivity.
Defined.

End ScopeGuardTheory.

(* ===================================================================== *)
(** * GILGuard / GILRelease: the lock state machine                        *)
(* ===================================================================== *)
Module GILTheory.
Import GIL.

Lemma lock_state_eq l : mkLock (held l) (gilstate_counter l) = l.
Proof. destruct l; reflexivity. Qed.

(** A guard constructed on a well-formed state holds the lock, and its
    destructor puts the state back. *)
Lemma guard_round_trip l :
  wf l ->
  exists g l1, GILGuard_ctor l = Done (g, l1) /\ Held l1 /\ wf l1
               /\ gilstate_counter l1 = (gilstate_counter l + 1)%Z
               /\ forall l2, l2 = l1 -> GILGuard_dtor g l2 = Done l.
Proof.
  intros [Hc Hh]. destruct l as [[|] c]; simpl in *.
  - specialize (Hh eq_refl).
    exists (mkGILGuard PyGILState_LOCKED), (mkLock true (c + 1)).
    split; [reflexivity|]. split; [reflexivity|]. split; [split; simpl; lia|].
    split; [reflexivity|]. intros l2 ->.
    unfold GILGuard_dtor, PyGILState_Release. simpl.
    replace (c + 1 - 1)%Z with c by lia.
    destruct (c =? 0)%Z eqn:E; [lia | reflexivity].
  - exists (mkGILGuard PyGILState_UNLOCKED), (mkLock true (c + 1)).
    split; [reflexivity|]. split; [reflexivity|]. split; [split; simpl; lia|].
    split; [reflexivity|]. intros l2 ->.
    unfold GILGuard_dtor, PyGILState_Release. simpl.
    replace (c + 1 - 1)%Z with c by lia.
    destruct (c =? 0)%Z eqn:E; [|reflexivity].
    apply Z.eqb_eq in E. subst c. reflexivity.
Qed.

Lemma nested_guards_restore n : forall l, wf l -> nested_guards n l = Done l.
Proof.
  induction n as [|n IH]; intros l Hwf; [reflexivity|].
  destruct (guard_round_trip l Hwf) as (g & l1 & Hc & _ & Hwf1 & _ & Hd).
  simpl. rewrite Hc. simpl. rewrite (IH l1 Hwf1). simpl. apply Hd. reflexivity.
Qed.

(** C7. On every state the runtime can be in: constructing a [GILGuard]
    while the lock is not held takes it, constructing one while it is held
    leaves the lock alone (only the nesting count moves), and in both
    cases the destructor restores the state found at construction;
    constructing a [GILRelease] while the lock is held gives it up and the
    destructor takes it back.  So a [GILGuard] constructed and destroyed at
    once leaves the lock state as it was, and guards nested to any depth on
    one thread complete (no deadlock, no fatal error) and restore it too. *)
Theorem gil_guard_round_trip l :
  wf l ->
  (NotHeld l ->
     exists g l1, GILGuard_ctor l = Done (g, l1) /\ Held l1
                  /\ GILGuard_dtor g l1 = Done l)
  /\ (Held l ->
     exists g l1, GILGuard_ctor l = Done (g, l1) /\ Held l1
                  /\ l1 = mkLock (held l) (gilstate_counter l + 1)
                  /\ GILGuard_dtor g l1 = Done l)
  /\ (Held l ->
     exists r l1, GILRelease_ctor l = Done (r, l1) /\ NotHeld l1
                  /\ GILRelease_dtor r l1 = Done l)
  /\ and_then (GILGuard_ctor l) (fun r => GILGuard_dtor r.1 r.2) = Done l
  /\ (forall n, nested_guards n l = Done l).
Proof.
  intros Hwf.
  destruct (guard_round_trip l Hwf) as (g & l1 & Hc & Hh1 & Hwf1 & Hcnt & Hd).
  split; [|split; [|split; [|split]]].
  - intros _. exists g, l1. repeat split; [exact Hc | exact Hh1 | apply Hd; reflexivity].
  - intros Hh. exists g, l1. repeat split; [exact Hc | exact Hh1 | | apply Hd; reflexivity].
    unfold Held in *. destruct l1 as [h1 c1]. simpl in *. congruence.
  - intros Hh. unfold GILRelease_ctor, GILRelease_dtor, PyEval_SaveThread,
      PyEval_RestoreThread, take_gil. unfold Held in Hh. rewrite Hh. simpl.
    eexists _, _. split; [reflexivity|]. split; [reflexivity|]. simpl.
    rewrite <- Hh. rewrite lock_state_eq. reflexivity.
  - rewrite Hc. simpl. apply Hd. reflexivity.
  - intros n. apply nested_guards_restore, Hwf.
Qed.

Lemma gil_guard_round_trip_witness :
  and_then (GILGuard_ctor (mkLock false 0)) (fun r => GILGuard_dtor r.1 r.2)
  = Done (mkLock false 0)
  /\ nested_guards 3 (mkLock true 1) = Done (mkLock true 1).
Proof.
  split.
  - apply (gil_guard_round_trip (mkLock false 0)). split; simpl; [lia | discriminate].
  - apply (gil_guard_round_trip (mkLock true 1)). split; simpl; intros; lia.
Defined.

End GILTheory.

(* ===================================================================== *)
(** * Converters: fallbacks, round trips, truth                            *)
(* ===================================================================== *)
Module ConvertersTheory.
Import Converters.

(** Allocation succeeds while memory is left, at an address that was free,
    and changes nothing else. *)
Lemma alloc_defined v r :
  0 < mem_left r ->
  exists a r1, alloc v r = Some (Npos a, r1)
               /\ heap r1 !! a = Some (mkObj 1 v)
               /\ heap r !! a = None
               /\ err r1 = err r /\ trace r1 = trace r.
Proof.
  intros Hm. unfold alloc. destruct (mem_left r) as [|n]; [lia|].
  eexists _, _. split; [reflexivity|]. simpl.
  split; [apply lookup_insert_eq|]. split; [|split; reflexivity].
  apply not_elem_of_dom. apply is_fresh.
Qed.

Lemma same_value_eq v v' : same_value v v' = true -> v' = v.
Proof.
  destruct v, v'; simpl; try discriminate.
  - intros H. apply Z.eqb_eq in H. congruence.
  - intros H. apply bool_decide_eq_true in H. congruence.
Qed.

Lemma shared_inv v r a :
  shared v r = Some a ->
  shared_slot v = Some a /\ exists o, heap r !! a = Some o /\ ob_val o = v.
Proof.
  unfold shared. destruct (shared_slot v) as [a'|]; [|discriminate].
  destruct (heap r !! a') as [o|] eqn:Ho; [|discriminate].
  destruct (same_value v (ob_val o)) eqn:Hs; [|discriminate].
  intros H. apply (inj Some) in H. subst a'.
  split; [reflexivity|]. exists o. split; [exact Ho | apply same_value_eq, Hs].
Qed.

(** A new reference: the object returned has one more count than the
    address had before (none, if the object is new), it has the value asked
    for, and nothing else changes.  Memory is needed only when the runtime
    keeps no shared object for the value. *)
Lemma new_ref_defined v r :
  0 < mem_left r \/ is_Some (shared v r) ->
  exists a r1, new_ref v r = Some (Npos a, r1)
    /\ heap r1 = <[a := mkObj (refcnt r a + 1) v]> (heap r)
    /\ (heap r !! a = None \/ shared v r = Some a)
    /\ err r1 = err r /\ trace r1 = trace r
    /\ (shared v r = Some a -> mem_left r1 = mem_left r).
Proof.
  intros Hm. unfold new_ref. destruct (shared v r) as [a|] eqn:Hs.
  - destruct (shared_inv _ _ _ Hs) as (_ & o & Ho & Hv).
    exists a. unfold bind, Py_INCREF, ret. rewrite Ho. eexists. split; [reflexivity|].
    unfold refcnt. rewrite Ho, Hv. simpl. repeat split; auto.
  - destruct Hm as [Hm|[a Ha]]; [|discriminate].
    unfold alloc. destruct (mem_left r) as [|n]; [lia|].
    assert (Hf : heap r !! fresh (dom (heap r)) = None)
      by apply not_elem_of_dom, is_fresh.
    eexists _, _. split; [reflexivity|]. simpl. unfold refcnt. rewrite Hf. simpl.
    repeat split; auto. discriminate.
Qed.

Lemma new_ref_lookup v r a r1 :
  heap r1 = <[a := mkObj (refcnt r a + 1) v]> (heap r) ->
  heap r1 !! a = Some (mkObj (refcnt r a + 1) v)
  /\ refcnt r1 a = (refcnt r a + 1)%Z
  /\ forall b, b <> a -> heap r1 !! b = heap r !! b.
Proof.
  intros Hh. split; [|split].
  - rewrite Hh. apply lookup_insert_eq.
  - unfold refcnt at 1. rewrite Hh, lookup_insert_eq. reflexivity.
  - intros b Hb. rewrite Hh. apply lookup_insert_ne. congruence.
Qed.

Lemma py_to_double_of_float r a o d :
  heap r !! a = Some o -> ob_val o = PyFloat d ->
  py_to_double (Npos a) r = Some (d, r).
Proof.
  intros Ho Hv. unfold py_to_double, PyFloat_Check, PyFloat_AsDouble, bind, deref, ret.
  rewrite Ho, Hv. simpl. rewrite Ho, Hv. reflexivity.
Qed.

Lemma py_to_long_of_int r a o z :
  heap r !! a = Some o -> ob_val o = PyLong z -> fits_long_long z = true ->
  py_to_long (Npos a) r = Some (z, r).
Proof.
  intros Ho Hv Hz. unfold py_to_long, PyLong_AsLongLong, bind, deref, long_long_of.
  rewrite Ho, Hv, Hz. reflexivity.
Qed.

Lemma py_to_string_of_str r a o cps bs :
  heap r !! a = Some o -> ob_val o = PyUnicode cps -> utf8_encode cps = Some bs ->
  py_to_string (Npos a) r = Some (Some (string_of_bytes bs), r).
Proof.
  intros Ho Hv He. unfold py_to_string, PyUnicode_AsUTF8, bind, deref.
  rewrite Ho, Hv, He. reflexivity.
Qed.

(** Any double and any [long long] survive the trip through an object. *)
Lemma double_round_trip d r :
  0 < mem_left r ->
  exists p r1, double_to_py d r = Some (p, r1) /\ py_to_double p r1 = Some (d, r1).
Proof.
  intros Hm. destruct (alloc_defined (PyFloat d) r Hm) as (a & r1 & Ha & Hl & _).
  exists (Npos a), r1. split; [exact Ha|].
  eapply py_to_double_of_float; [exact Hl | reflexivity].
Qed.

Lemma long_round_trip z r :
  0 < mem_left r -> fits_long_long z = true ->
  exists p r1, long_to_py z r = Some (p, r1) /\ py_to_long p r1 = Some (z, r1).
Proof.
  intros Hm Hz.
  destruct (new_ref_defined (PyLong z) r (or_introl Hm)) as (a & r1 & Ha & Hh & _).
  exists (Npos a), r1. split; [exact Ha|].
  eapply py_to_long_of_int;
    [exact (proj1 (new_ref_lookup _ _ _ _ Hh)) | reflexivity | exact Hz].
Qed.

(** The literal is the double nearest to 3.14: it is within half a unit in
    the last place (2^-52 here) of 314/100. *)
Lemma dbl_3_14_nearest :
  dbl_3_14 = S754_finite false 7070651414971679 (-51)
  /\ (2 * Z.abs (100 * 7070651414971679 - 314 * 2 ^ 51) <= 100)%Z.
Proof. split; [reflexivity | vm_compute; discriminate]. Qed.

(** C5. While memory is left: [py_to_double(double_to_py(3.14))] is [3.14],
    [py_to_long(long_to_py(-7))] is [-7] and
    [py_to_string(string_to_py("abc"))] is ["abc"]; the reading converter
    leaves the runtime as the writing one left it. *)
Theorem scalar_round_trips r :
  0 < mem_left r ->
  (exists p r1, double_to_py dbl_3_14 r = Some (p, r1)
                /\ py_to_double p r1 = Some (dbl_3_14, r1))
  /\ (exists p r1, long_to_py (-7) r = Some (p, r1)
                   /\ py_to_long p r1 = Some ((-7)%Z, r1))
  /\ (exists p r1, string_to_py "abc" r = Some (p, r1)
                   /\ py_to_string p r1 = Some (Some "abc"%string, r1)).
Proof.
  intros Hm. split; [|split].
  - apply double_round_trip, Hm.
  - apply long_round_trip; [exact Hm | reflexivity].
  - destruct (new_ref_defined (PyUnicode [97; 98; 99]%N) r (or_introl Hm))
      as (a & r1 & Ha & Hh & _).
    exists (Npos a), r1. split; [exact Ha|].
    apply (py_to_string_of_str r1 a _ [97; 98; 99]%N [97; 98; 99]%N
             (proj1 (new_ref_lookup _ _ _ _ Hh)));
      reflexivity.
Qed.

Lemma scalar_round_trips_witness :
  exists p r1, long_to_py (-7) demo_rt = Some (p, r1)
               /\ py_to_long p r1 = Some ((-7)%Z, r1).
Proof.
  apply (scalar_round_trips demo_rt). simpl. lia.
Defined.

(** C4, as the code has it.  On an object that is neither integer-like nor
    floating-point-like [py_to_double] returns [0.0] and leaves the runtime
    (error indicator included) untouched; on an integer-like object whose
    value fits a [long long] it returns that value widened to a double,
    again touching nothing.  [py_to_long] has no fallback of its own: it
    is the runtime's integer conversion, which on an object that offers no
    integer conversion returns [-1] with [TypeError] in the error
    indicator. *)
Theorem py_to_double_lenient_fallback r a o :
  heap r !! a = Some o ->
  (integer_like (ob_val o) = false -> float_like (ob_val o) = false ->
     py_to_double (Npos a) r = Some (dbl_zero, r))
  /\ (integer_like (ob_val o) = true ->
      fits_long_long (int_value (ob_val o)) = true ->
      py_to_double (Npos a) r = Some (double_of_Z (int_value (ob_val o)), r))
  /\ py_to_long (Npos a) r = PyLong_AsLongLong (Npos a) r
  /\ (integer_like (ob_val o) = false -> float_like (ob_val o) = false ->
      has_index (ob_val o) = false ->
      py_to_long (Npos a) r = Some ((-1)%Z, set_err TypeError r)).
Proof.
  intros Ho. split; [|split; [|split]].
  - intros Hi Hf.
    unfold py_to_double, PyFloat_Check, PyLong_Check, bind, deref, ret.
    rewrite Ho. destruct (ob_val o) eqn:Hv; try discriminate; simpl;
      rewrite Ho, Hv; reflexivity.
  - intros Hi Hz.
    unfold py_to_double, PyFloat_Check, PyLong_Check, PyLong_AsLongLong,
      long_long_of, bind, deref, ret.
    rewrite Ho. destruct (ob_val o) as [|b|z| | | | |] eqn:Hv; try discriminate;
      repeat (first [rewrite Ho | rewrite Hv]; simpl).
    + destruct b; reflexivity.
    + simpl in Hz. rewrite Hz. reflexivity.
  - reflexivity.
  - intros _ _ Hx. unfold py_to_long, PyLong_AsLongLong, bind, deref, fail_with.
    rewrite Ho. destruct (ob_val o) as [| | | | | |[| |z] nb|]; try discriminate;
      reflexivity.
Qed.

Lemma py_to_double_lenient_fallback_witness :
  py_to_double 1 demo_rt = Some (dbl_zero, demo_rt)
  /\ py_to_double 4 demo_rt = Some (double_of_Z 7, demo_rt).
Proof.
  split.
  - apply (proj1 (py_to_double_lenient_fallback demo_rt 1
                    (mkObj 1 (PyUnicode [120%N])) eq_refl)); reflexivity.
  - apply (proj1 (proj2 (py_to_double_lenient_fallback demo_rt 4
                           (mkObj 1 (PyLong 7)) eq_refl))); reflexivity.
Defined.

(** Where C4 as stated fails: a [str] is neither integer-like nor
    floating-point-like, yet [py_to_long] returns [-1] and leaves
    [TypeError] set; and an [int] too large for [long long] is not widened
    by [py_to_double], which returns [-1.0] with [OverflowError] set. *)
Lemma py_to_long_has_no_fallback :
  heap demo_rt !! 1%positive = Some (mkObj 1 (PyUnicode [120%N]))
  /\ integer_like (PyUnicode [120%N]) = false
  /\ float_like (PyUnicode [120%N]) = false
  /\ py_to_long 1 demo_rt = Some ((-1)%Z, set_err TypeError demo_rt)
  /\ py_to_long 1 demo_rt <> Some (0%Z, demo_rt)
  /\ err (set_err TypeError demo_rt) = Some TypeError
  /\ heap demo_rt !! 2%positive = Some (mkObj 1 (PyLong (2 ^ 63)))
  /\ py_to_double 2 demo_rt = Some (dbl_minus_one, set_err OverflowError demo_rt)
  /\ py_to_double 2 demo_rt <> Some (double_of_Z (2 ^ 63), demo_rt).
Proof. repeat split; try reflexivity; vm_compute; discriminate. Qed.

(** C9. [py_to_bool] is [PyObject_IsTrue(obj) != 0]: when the truth test
    fails (result [-1], error indicator set by the runtime) it returns
    [true] and leaves the error indicator set, exactly the value it
    returns for an object that is true; it returns [false] exactly when
    the truth test succeeds with [0]. *)
Theorem py_to_bool_failed_test_is_true r a o :
  heap r !! a = Some o ->
  exists t r',
    PyObject_IsTrue (Npos a) r = Some (t, r')
    /\ py_to_bool (Npos a) r = Some (negb (t =? 0)%Z, r')
    /\ (t = (-1)%Z \/ t = 0%Z \/ t = 1%Z)
    /\ ((t < 0)%Z ->
        py_to_bool (Npos a) r = Some (true, r')
        /\ r' = set_err UserError r /\ err r' = Some UserError
        /\ exists nb, ob_val o = PyInstance nb Raises)
    /\ ((0 <= t)%Z -> r' = r)
    /\ (py_to_bool (Npos a) r = Some (false, r') <-> t = 0%Z)
    /\ (forall a2 t2 r2,
          PyObject_IsTrue (Npos a2) r = Some (t2, r2) -> (t < 0)%Z -> t2 = 1%Z ->
          fst <$> py_to_bool (Npos a) r = fst <$> py_to_bool (Npos a2) r).
Proof.
  intros Ho.
  assert (Hdef : exists t r', PyObject_IsTrue (Npos a) r = Some (t, r')
            /\ (t = (-1)%Z \/ t = 0%Z \/ t = 1%Z)
            /\ ((t < 0)%Z -> r' = set_err UserError r
                            /\ exists nb, ob_val o = PyInstance nb Raises)
            /\ ((0 <= t)%Z -> r' = r)).
  { unfold PyObject_IsTrue, bind, deref, ret, fail_with. rewrite Ho.
    destruct (ob_val o) as [|b|z|d|cps|info|nb [| |b]|e b];
      try (eexists _, _; split; [reflexivity|];
           split; [auto|]; split; [lia | reflexivity]).
    - destruct b; eexists _, _; (split; [reflexivity|]);
        (split; [auto|]); (split; [lia | reflexivity]).
    - destruct (z =? 0)%Z; eexists _, _; (split; [reflexivity|]);
        (split; [auto|]); (split; [lia | reflexivity]).
    - destruct (dbl_is_zero d); eexists _, _; (split; [reflexivity|]);
        (split; [auto|]); (split; [lia | reflexivity]).
    - destruct cps; eexists _, _; (split; [reflexivity|]);
        (split; [auto|]); (split; [lia | reflexivity]).
    - destruct (bi_len info =? 0)%Z; eexists _, _; (split; [reflexivity|]);
        (split; [auto|]); (split; [lia | reflexivity]).
    - eexists _, _. split; [reflexivity|]. split; [auto|].
      split; [|lia]. intros _. split; [reflexivity | eauto].
    - destruct b; eexists _, _; (split; [reflexivity|]);
        (split; [auto|]); (split; [lia | reflexivity]).
    - destruct b; eexists _, _; (split; [reflexivity|]);
        (split; [auto|]); (split; [lia | reflexivity]). }
  destruct Hdef as (t & r' & Ht & Hrange & Hneg & Hpos).
  assert (Hb : py_to_bool (Npos a) r = Some (negb (t =? 0)%Z, r')).
  { unfold py_to_bool, bind. rewrite Ht. reflexivity. }
  exists t, r'. split; [exact Ht|]. split; [exact Hb|]. split; [exact Hrange|].
  split; [|split; [exact Hpos|split]].
  - intros Hlt. destruct (Hneg Hlt) as [-> Hnb]. rewrite Hb.
    replace (t =? 0)%Z with false by (symmetry; apply Z.eqb_neq; lia).
    repeat split; try reflexivity. exact Hnb.
  - rewrite Hb. split.
    + intros [= H]. apply negb_false_iff, Z.eqb_eq in H. exact H.
    + intros ->. reflexivity.
  - intros a2 t2 r2 Ht2 Hlt ->. rewrite Hb. unfold py_to_bool, bind. rewrite Ht2.
    replace (t =? 0)%Z with false by (symmetry; apply Z.eqb_neq; lia).
    reflexivity.
Qed.

Lemma py_to_bool_failed_test_is_true_witness :
  py_to_bool 3 demo_rt = Some (true, set_err UserError demo_rt).
Proof.
  destruct (py_to_bool_failed_test_is_true demo_rt 3 (mkObj 1 (PyInstance NoSlot Raises))
              eq_refl) as (t & r' & Ht & Hb & _ & Hneg & _).
  assert (Hlt : (t < 0)%Z) by (vm_compute in Ht; injection Ht as <- _; reflexivity).
  destruct (Hneg Hlt) as (Hb' & -> & _). exact Hb'.
Defined.

End ConvertersTheory.

(* ===================================================================== *)
(** * GILGuard and GILRelease nested in one another                        *)
(* ===================================================================== *)
Module GILNesting.
Import GIL.

Lemma wf_under_guard l c :
  wf l -> c = (gilstate_counter l + 1)%Z -> wf (mkLock true c).
Proof. intros [H0 _] ->. split; simpl; intros; lia. Qed.

Lemma wf_under_release l : wf l -> wf (mkLock false (gilstate_counter l)).
Proof. intros [H0 _]. split; simpl; [exact H0 | discriminate]. Qed.

Lemma Ensure_shape l :
  PyGILState_Ensure l
  = Done (if held l then PyGILState_LOCKED else PyGILState_UNLOCKED,
          mkLock true (gilstate_counter l + 1)).
Proof. destruct l as [[|] c]; reflexivity. Qed.

Lemma Release_after_Ensure l :
  wf l ->
  PyGILState_Release (if held l then PyGILState_LOCKED else PyGILState_UNLOCKED)
    (mkLock true (gilstate_counter l + 1)) = Done l.
Proof.
  intros [H0 H1]. destruct l as [[|] c]; simpl in *; unfold PyGILState_Release; simpl;
    replace (c + 1 - 1)%Z with c by lia.
  - specialize (H1 eq_refl). destruct (c =? 0)%Z eqn:E; [lia | reflexivity].
  - destruct (c =? 0)%Z eqn:E; [apply Z.eqb_eq in E; subst c|]; reflexivity.
Qed.

Lemma run_block_outcome b : forall l,
  wf l ->
  run_block b l = if releases_while_held (held l) b then Done l else Fatal.
Proof.
  induction b as [|b1 IH1 b2 IH2|body IH|body IH]; intros l Hwf; simpl.
  - reflexivity.
  - rewrite (IH1 l Hwf). destruct (releases_while_held (held l) b1); simpl.
    + apply IH2, Hwf.
    + reflexivity.
  - unfold GILGuard_ctor, GILGuard_dtor. rewrite Ensure_shape. simpl.
    rewrite IH by (eapply wf_under_guard; [exact Hwf | reflexivity]). simpl.
    destruct (releases_while_held true body); simpl; [|reflexivity].
    apply Release_after_Ensure, Hwf.
  - unfold GILRelease_ctor, GILRelease_dtor, PyEval_SaveThread, PyEval_RestoreThread.
    destruct (held l) eqn:Hh; simpl; [|reflexivity].
    rewrite IH by (apply wf_under_release, Hwf). simpl.
    destruct (releases_while_held false body); simpl; [|reflexivity].
    unfold take_gil. simpl. destruct l as [h c]. simpl in Hh. subst h. reflexivity.
Qed.

(** X1. Blocks that nest [GILGuard] and [GILRelease] scopes in any way,
    entered in any state the runtime can be in, never deadlock: when every
    [GILRelease] is constructed while the lock is held the block completes
    and leaves the lock state exactly as it found it; otherwise it ends in
    the runtime's fatal error, at the first [GILRelease] constructed
    without the lock. *)
Theorem gil_blocks_restore_or_abort b l :
  wf l ->
  (releases_while_held (held l) b = true -> run_block b l = Done l)
  /\ (releases_while_held (held l) b = false -> run_block b l = Fatal)
  /\ run_block b l <> Deadlock.
Proof.
  intros Hwf. rewrite (run_block_outcome b l Hwf).
  destruct (releases_while_held (held l) b); repeat split; congruence.
Qed.

Lemma gil_blocks_restore_or_abort_witness :
  run_block (UnderGuard (Then (UnderRelease (UnderGuard Plain)) (UnderGuard Plain)))
            (mkLock false 0) = Done (mkLock false 0)
  /\ run_block (UnderRelease Plain) (mkLock false 0) = Fatal.
Proof.
  split.
  - apply (gil_blocks_restore_or_abort _ (mkLock false 0));
      [split; simpl; [lia | discriminate] | reflexivity].
  - apply (proj1 (proj2 (gil_blocks_restore_or_abort (UnderRelease Plain) (mkLock false 0)
             (conj (Z.le_refl 0) (fun H => False_ind _ (Bool.diff_false_true H))))));
      reflexivity.
Defined.

End GILNesting.

(* ===================================================================== *)
(** * PyObjectPtr: scopes, round trips, what never touches the runtime     *)
(* ===================================================================== *)
Module PyObjectPtrUse.
Import PyObjectPtr CPythonTheory PyObjectPtrTheory Converters ConvertersTheory.

Lemma runtime_eta r : mkRt (heap r) (err r) (mem_left r) (trace r) = r.
Proof. destruct r; reflexivity. Qed.

Lemma PyObject_eta o : mkObj (ob_refcnt o) (ob_val o) = o.
Proof. destruct o; reflexivity. Qed.

(** One more count and one less leave a live object, and the runtime, as
    they were. *)
Lemma INCREF_DECREF a r o r1 :
  heap r !! a = Some o -> ob_refcnt o <> 0%Z ->
  Py_INCREF a r = Some (tt, r1) ->
  Py_DECREF a r1 = Some (tt, r).
Proof.
  intros Ho Hnz. unfold Py_INCREF. rewrite Ho. intros [= <-].
  unfold Py_DECREF. simpl. rewrite lookup_insert_eq. simpl.
  replace (ob_refcnt o + 1 - 1)%Z with (ob_refcnt o) by lia.
  destruct (ob_refcnt o =? 0)%Z eqn:E; [apply Z.eqb_eq in E; contradiction|].
  unfold set_heap. simpl. rewrite insert_insert_eq, PyObject_eta.
  rewrite insert_id by exact Ho. rewrite runtime_eta. reflexivity.
Qed.

(** X2. A handle made by [borrow(p)] on a null pointer or on an object in
    use, and destroyed, leaves the runtime exactly as it was: the count the
    constructor added is the one the destructor drops, and nothing else is
    touched. *)
Theorem borrow_scope_restores p w :
  live_ptr (rt w) p = true ->
  exists h w1 w2,
    borrow p w = Some (h, w1) /\ get h w1 = Some p
    /\ dtor h w1 = Some w2 /\ rt w2 = rt w /\ get h w2 = None
    /\ forall h', h' < length (objs w) -> get h' w2 = get h' w.
Proof.
  intros Hl.
  assert (Hstep : exists r1, Py_XINCREF p (rt w) = Some (tt, r1)
                             /\ Py_XDECREF p r1 = Some (tt, rt w)).
  { destruct p as [|a]; simpl in *; [exists (rt w); split; reflexivity|].
    destruct (heap (rt w) !! a) as [o|] eqn:Ho; [|discriminate].
    apply negb_true_iff, Z.eqb_neq in Hl.
    assert (Hi : exists r1, Py_INCREF a (rt w) = Some (tt, r1)).
    { unfold Py_INCREF. rewrite Ho. eauto. }
    destruct Hi as [r1 Hi]. exists r1. split; [exact Hi|].
    eapply INCREF_DECREF; eassumption. }
  destruct Hstep as (r1 & Hinc & Hdec).
  unfold borrow. rewrite Hinc.
  set (w1 := (ctor p (with_rt w r1)).2).
  assert (Hg : ptr_ w1 (length (objs w)) = Some p).
  { apply (ptr__ctor_new (with_rt w r1) p). }
  exists (length (objs w)), w1.
  assert (Hd : dtor (length (objs w)) w1
               = Some (mkWorld (rt w) (<[length (objs w) := None]> (objs w1)))).
  { unfold dtor. rewrite Hg. change (rt w1) with r1. rewrite Hdec. reflexivity. }
  eexists. split; [reflexivity|]. split; [exact Hg|]. split; [exact Hd|].
  split; [reflexivity|]. split.
  - unfold get, ptr_. simpl. rewrite list_lookup_insert_eq; [reflexivity|].
    rewrite length_app. simpl. lia.
  - intros h' Hlt. unfold get, ptr_. simpl.
    rewrite list_lookup_insert_ne by lia. rewrite lookup_app_l by exact Hlt.
    reflexivity.
Qed.

Lemma borrow_scope_restores_witness :
  exists h w1 w2,
    borrow 1%N demo_world = Some (h, w1)
    /\ dtor h w1 = Some w2 /\ rt w2 = rt demo_world.
Proof.
  destruct (borrow_scope_restores 1%N demo_world eq_refl)
    as (h & w1 & w2 & Hb & _ & Hd & Hr & _).
  exists h, w1, w2. auto.
Defined.

(** X3. [steal(p)] followed by [release()] hands back [p] itself, for any
    pointer value whatever (null, dangling, wild): neither call reads
    through it.  The runtime is untouched throughout, the handle is null
    afterwards and converts to [false], and destroying it does nothing. *)
Theorem steal_release_round_trip p w :
  exists w2 w3,
    release (steal p w).1 (steal p w).2 = Some (p, w2)
    /\ rt w2 = rt w
    /\ to_bool (steal p w).1 w2 = Some false
    /\ to_bool (steal p w).1 (steal p w).2 = Some (negb (N.eqb p NULL))
    /\ dtor (steal p w).1 w2 = Some w3
    /\ rt w3 = rt w.
Proof.
  set (h := (steal p w).1). set (w1 := (steal p w).2).
  assert (Hg : ptr_ w1 h = Some p) by apply ptr__ctor_new.
  assert (Hn : ptr_ (set_ptr_ h NULL w1) h = Some NULL).
  { eapply ptr__set_eq, Hg. }
  exists (set_ptr_ h NULL w1). eexists.
  split; [unfold release; rewrite Hg; reflexivity|].
  split; [reflexivity|].
  split; [unfold to_bool; rewrite Hn; reflexivity|].
  split; [unfold to_bool; rewrite Hg; reflexivity|].
  split; [unfold dtor; rewrite Hn; reflexivity|].
  reflexivity.
Qed.

Lemma quiet_exec_rt o w w' x :
  exec o w = Some (w', x) -> quiet_op o w = true -> rt w' = rt w.
Proof.
  destruct o as [|p|p|other|this other|h|h p|h]; simpl.
  - intros [= <- _] _. reflexivity.
  - intros [= <- _] _. reflexivity.
  - destruct p; [|discriminate]. intros [= <- _] _. reflexivity.
  - unfold move_ctor. destruct (ptr_ w other); [|discriminate].
    intros [= <- _] _. reflexivity.
  - unfold move_assign. destruct (ptr_ w this) as [p|]; [|discriminate].
    destruct (ptr_ w other) as [q|]; [|discriminate].
    case_decide as Hd; [intros [= <- _] _; reflexivity|].
    rewrite bool_decide_eq_false_2 by exact Hd. simpl.
    destruct p; [|discriminate]. simpl. intros [= <- _] _. reflexivity.
  - unfold release. destruct (ptr_ w h); [|discriminate].
    intros [= <- _] _. reflexivity.
  - unfold reset. destruct (ptr_ w h) as [[|a]|]; try discriminate.
    simpl. intros [= <- _] _. reflexivity.
  - unfold dtor. destruct (ptr_ w h) as [[|a]|]; try discriminate.
    simpl. intros [= <- _] _. reflexivity.
Qed.

Lemma quiet_exec_defined o w :
  on_live_handles o w = true -> quiet_op o w = true ->
  exists w' x, exec o w = Some (w', x).
Proof.
  destruct o as [|p|p|other|this other|h|h p|h]; simpl; intros Hl Hq;
    try (eexists _, _; reflexivity).
  - destruct p; [|discriminate]. eexists _, _. reflexivity.
  - apply bool_decide_eq_true in Hl. destruct Hl as [q Hq']. unfold move_ctor.
    rewrite Hq'. eexists _, _. reflexivity.
  - apply andb_true_iff in Hl. destruct Hl as [H1 H2].
    apply bool_decide_eq_true in H1, H2. destruct H1 as [p Hp], H2 as [q Hq'].
    unfold move_assign. rewrite Hp, Hq'. case_decide as Hd; [eexists _, _; reflexivity|].
    rewrite bool_decide_eq_false_2 in Hq by exact Hd. rewrite Hp in Hq. simpl in Hq.
    destruct p; [|discriminate]. simpl. eexists _, _. reflexivity.
  - apply bool_decide_eq_true in Hl. destruct Hl as [q Hq']. unfold release.
    rewrite Hq'. eexists _, _. reflexivity.
  - unfold reset. destruct (ptr_ w h) as [[|a]|]; try discriminate.
    simpl. eexists _, _. reflexivity.
  - unfold dtor. destruct (ptr_ w h) as [[|a]|]; try discriminate.
    simpl. eexists _, _. reflexivity.
Qed.

(** X4. Default construction, [steal], [release], move construction, self
    move-assignment, and [borrow] / [reset] / move-assignment / destruction
    where the pointer to count is null, never call into the runtime: over
    any sequence of such operations the runtime stays exactly as it was
    (no object is read, no count moves, the error indicator is not
    touched), whatever the pointers held, and each of them is defined on
    live handles even when a pointer held is dangling. *)
Theorem ownership_ops_leave_runtime_alone ops : forall w w' xs,
  run ops w = Some (w', xs) -> all_quiet ops w = true ->
  rt w' = rt w
  /\ (forall o, on_live_handles o w' = true -> quiet_op o w' = true ->
                exists w'' x, exec o w' = Some (w'', x) /\ rt w'' = rt w).
Proof.
  induction ops as [|o ops IH]; simpl; intros w w' xs Hrun Hq.
  - injection Hrun as <- _. split; [reflexivity|].
    intros o Hl Hqo. destruct (quiet_exec_defined o w Hl Hqo) as (w'' & x & He).
    exists w'', x. split; [exact He|]. eapply quiet_exec_rt; eassumption.
  - apply andb_true_iff in Hq. destruct Hq as [Hqo Hrest].
    destruct (exec o w) as [[w1 x]|] eqn:He; [|discriminate].
    destruct (run ops w1) as [[w2 xs2]|] eqn:Hr; [|discriminate].
    injection Hrun as <- _.
    pose proof (quiet_exec_rt _ _ _ _ He Hqo) as H1.
    destruct (IH _ _ _ Hr Hrest) as [H2 H3]. split; [congruence|].
    intros o' Hl Hq'. destruct (H3 o' Hl Hq') as (w'' & x' & He' & Hrt).
    exists w'', x'. split; [exact He'|]. congruence.
Qed.

(** Nothing lives at address 9: the handles below carry a wild pointer. *)
Lemma ownership_ops_leave_runtime_alone_witness :
  exists w' xs,
    run [Steal 9%N; MoveCtor 0; MoveAssign 1 1; Release 1; Default; MoveAssign 0 2; Dtor 0]
        demo_world = Some (w', xs)
    /\ rt w' = rt demo_world.
Proof.
  eexists _, _. split; [vm_compute; reflexivity|].
  apply (ownership_ops_leave_runtime_alone
           [Steal 9%N; MoveCtor 0; MoveAssign 1 1; Release 1; Default; MoveAssign 0 2; Dtor 0]
           demo_world _ _ eq_refl eq_refl).
Defined.

(** What the three C-to-Python converters leave behind: the null pointer,
    an exception and an unchanged heap; or a new reference, to a new
    object or to one the runtime shares, with nothing else changed. *)
Lemma to_py_outcome (conv : M ptr) r :
  (exists z, conv = long_to_py z) \/ (exists d, conv = double_to_py d)
  \/ (exists s, conv = string_to_py s) ->
  exists p r1, conv r = Some (p, r1) /\
    ((p = NULL /\ heap r1 = heap r /\ is_Some (err r1))
     \/ (exists a v, p = Npos a
                     /\ heap r1 = <[a := mkObj (refcnt r a + 1) v]> (heap r)
                     /\ (heap r !! a = None
                         \/ exists o, heap r !! a = Some o /\ ob_val o = v)
                     /\ err r1 = err r)).
Proof.
  assert (Halloc : forall v, exists p r1, alloc v r = Some (p, r1) /\
    ((p = NULL /\ heap r1 = heap r /\ is_Some (err r1))
     \/ (exists a v, p = Npos a
                     /\ heap r1 = <[a := mkObj (refcnt r a + 1) v]> (heap r)
                     /\ (heap r !! a = None
                         \/ exists o, heap r !! a = Some o /\ ob_val o = v)
                     /\ err r1 = err r))).
  { intros v. unfold alloc. destruct (mem_left r) as [|n].
    - eexists _, _. split; [reflexivity|]. left. simpl. eauto.
    - assert (Hf : heap r !! fresh (dom (heap r)) = None)
        by apply not_elem_of_dom, is_fresh.
      eexists _, _. split; [reflexivity|]. right. eexists _, v. simpl.
      unfold refcnt. rewrite Hf. simpl. repeat split. left. reflexivity. }
  assert (Hnew : forall v, exists p r1, new_ref v r = Some (p, r1) /\
    ((p = NULL /\ heap r1 = heap r /\ is_Some (err r1))
     \/ (exists a v, p = Npos a
                     /\ heap r1 = <[a := mkObj (refcnt r a + 1) v]> (heap r)
                     /\ (heap r !! a = None
                         \/ exists o, heap r !! a = Some o /\ ob_val o = v)
                     /\ err r1 = err r))).
  { intros v. destruct (shared v r) as [a|] eqn:Hs.
    - destruct (new_ref_defined v r) as (a' & r1 & Hn & Hh & [Hf|Hsh] & He & _).
      { right. rewrite Hs. eauto. }
      + exists (Npos a'), r1. split; [exact Hn|]. right. exists a', v. auto.
      + exists (Npos a'), r1. split; [exact Hn|]. right. exists a', v.
        destruct (shared_inv _ _ _ Hsh) as (_ & o & Ho & Hv). eauto 8.
    - unfold new_ref. rewrite Hs. apply Halloc. }
  intros [[z ->]|[[d ->]|[s ->]]].
  - apply Hnew.
  - apply Halloc.
  - unfold string_to_py, PyUnicode_FromString.
    destruct (utf8_decode (c_str (bytes_of_string s))) as [cps|]; [apply Hnew|].
    eexists _, _. split; [reflexivity|]. left. simpl. eauto.
Qed.

(** X5. Whatever [long_to_py], [double_to_py] or [string_to_py] returns
    may be wrapped with [steal] at once: destroying the handle then puts
    every reference count back where it was before the conversion, whether
    the conversion made an object (its one count is dropped and the object
    freed), returned an object the runtime shares (the count it added is
    dropped) or failed (the handle is null and the destructor does
    nothing, the exception stays in the error indicator).  Wrapped with
    [borrow] instead, the object is left with one count more than before
    the conversion, which nobody holds. *)
Theorem new_reference_wrapped (conv : M ptr) r hs :
  (exists z, conv = long_to_py z) \/ (exists d, conv = double_to_py d)
  \/ (exists s, conv = string_to_py s) ->
  exists p r1,
    conv r = Some (p, r1)
    /\ (exists w3, dtor (steal p (mkWorld r1 hs)).1 (steal p (mkWorld r1 hs)).2 = Some w3
                   /\ (forall b, refcnt (rt w3) b = refcnt r b)
                   /\ (forall b, heap r !! b = None -> heap (rt w3) !! b = None)
                   /\ err (rt w3) = err r1)
    /\ (p = NULL -> to_bool (steal p (mkWorld r1 hs)).1 (steal p (mkWorld r1 hs)).2
                    = Some false /\ is_Some (err r1))
    /\ (forall a, p = Npos a ->
         exists h w2 w3,
           borrow p (mkWorld r1 hs) = Some (h, w2) /\ dtor h w2 = Some w3
           /\ get h w3 = None
           /\ refcnt (rt w3) a = (refcnt r a + 1)%Z
           /\ forall b, b <> a -> refcnt (rt w3) b = refcnt r b).
Proof.
  intros Hconv. destruct (to_py_outcome conv r Hconv) as (p & r1 & Hc & Hout).
  exists p, r1. split; [exact Hc|].
  set (w1 := mkWorld r1 hs).
  assert (Hg : ptr_ (steal p w1).2 (steal p w1).1 = Some p) by apply ptr__ctor_new.
  destruct Hout as [(-> & Hh & He)|(a & v & -> & Hh & Hwas & He)].
  - split; [|split].
    + eexists. split; [unfold dtor; rewrite Hg; reflexivity|]. simpl.
      split; [intros b; unfold refcnt; rewrite Hh; reflexivity|].
      split; [intros b Hb; rewrite Hh; exact Hb | reflexivity].
    + intros _. split; [unfold to_bool; rewrite Hg; reflexivity | exact He].
    + intros a [=].
  - destruct (new_ref_lookup _ _ _ _ Hh) as (Hl & Hrc & Hoth).
    assert (Hrc1 : forall b, refcnt r1 b
                     = (refcnt r b + if decide (a = b) then 1 else 0)%Z).
    { intros b. case_decide as Hab; [subst b; exact Hrc|].
      unfold refcnt. rewrite Hoth by congruence. lia. }
    split; [|split].
    + destruct (Py_DECREF a r1) as [[[] r2]|] eqn:Hd.
      2:{ unfold Py_DECREF in Hd. rewrite Hl in Hd. discriminate. }
      eexists. split; [unfold dtor; rewrite Hg; simpl; rewrite Hd; reflexivity|].
      simpl. split; [|split].
      * intros b. rewrite (refcnt_DECREF _ b _ _ Hd), Hrc1. lia.
      * intros b Hb. unfold Py_DECREF in Hd. rewrite Hl in Hd. cbv zeta in Hd.
        apply (inj Some) in Hd. apply (f_equal snd) in Hd. cbn [snd] in Hd.
        rewrite <- Hd. cbn [heap set_heap ob_refcnt].
        destruct (decide (b = a)) as [->|Hne].
        -- unfold refcnt. rewrite Hb. simpl. apply lookup_delete_eq.
        -- destruct (refcnt r a + 1 - 1 =? 0)%Z.
           ++ rewrite lookup_delete_ne by congruence. rewrite Hoth by exact Hne. exact Hb.
           ++ rewrite lookup_insert_ne by congruence. rewrite Hoth by exact Hne. exact Hb.
      * unfold Py_DECREF in Hd. rewrite Hl in Hd. cbv zeta in Hd.
        apply (inj Some) in Hd. apply (f_equal snd) in Hd. cbn [snd] in Hd.
        rewrite <- Hd. reflexivity.
    + intros [=].
    + intros a' Ha'. apply (inj Npos) in Ha'. subst a'. subst w1.
      destruct (Py_INCREF a r1) as [[[] r2]|] eqn:Hi.
      2:{ unfold Py_INCREF in Hi. rewrite Hl in Hi. discriminate. }
      assert (Hl2 : is_Some (heap r2 !! a)).
      { unfold Py_INCREF in Hi. rewrite Hl in Hi. apply (inj Some) in Hi.
        apply (f_equal snd) in Hi. cbn [snd] in Hi. rewrite <- Hi. cbn [heap set_heap].
        rewrite lookup_insert_eq. eauto. }
      destruct (Py_DECREF a r2) as [[[] r3]|] eqn:Hd.
      2:{ unfold Py_DECREF in Hd. destruct Hl2 as [o2 Ho2]. rewrite Ho2 in Hd.
          discriminate. }
      unfold borrow. change (rt (mkWorld r1 hs)) with r1. cbn [Py_XINCREF]. rewrite Hi.
      set (w2 := (ctor (Npos a) (with_rt (mkWorld r1 hs) r2)).2).
      assert (Hg2 : ptr_ w2 (length hs) = Some (Npos a)).
      { apply (ptr__ctor_new (with_rt (mkWorld r1 hs) r2) (Npos a)). }
      eexists (length hs), w2, _. split; [reflexivity|]. split.
      * unfold dtor. rewrite Hg2. cbn [Py_XDECREF]. change (rt w2) with r2.
        rewrite Hd. reflexivity.
      * split; [|split].
        -- unfold get, ptr_. simpl. rewrite list_lookup_insert_eq; [reflexivity|].
           rewrite length_app. simpl. lia.
        -- cbn [rt]. rewrite (refcnt_DECREF _ _ _ _ Hd), (refcnt_INCREF _ _ _ _ Hi), Hrc1.
           rewrite !decide_True by reflexivity. lia.
        -- intros b Hb. cbn [rt].
           rewrite (refcnt_DECREF _ _ _ _ Hd), (refcnt_INCREF _ _ _ _ Hi), Hrc1.
           rewrite !decide_False by congruence. lia.
Qed.

Lemma new_reference_wrapped_witness :
  exists r1,
    long_to_py 42 shared_rt = Some (1048%N, r1)
    /\ refcnt shared_rt 1048 = 3%Z /\ refcnt r1 1048 = 4%Z
    /\ exists w3, dtor (steal 1048%N (mkWorld r1 [])).1 (steal 1048%N (mkWorld r1 [])).2
                  = Some w3
                  /\ refcnt (rt w3) 1048 = 3%Z.
Proof.
  destruct (new_reference_wrapped (long_to_py 42) shared_rt [])
    as (p & r1 & Hc & (w3 & Hd & Hrc & _) & _).
  { left. exists 42%Z. reflexivity. }
  assert (Hp : long_to_py 42 shared_rt
               = Some (1048%N, set_heap (<[1048%positive := mkObj 4 (PyLong 42)]>
                                          (heap shared_rt)) shared_rt))
    by reflexivity.
  rewrite Hp in Hc. apply (inj Some) in Hc.
  assert (Hp1 : p = 1048%N) by (apply (f_equal fst) in Hc; symmetry; exact Hc).
  assert (Hr1 : r1 = set_heap (<[1048%positive := mkObj 4 (PyLong 42)]>
                                 (heap shared_rt)) shared_rt)
    by (apply (f_equal snd) in Hc; symmetry; exact Hc).
  subst p. exists r1. split; [rewrite Hp, Hr1; reflexivity|].
  split; [reflexivity|]. split; [rewrite Hr1; reflexivity|].
  exists w3. split; [exact Hd|]. rewrite Hrc. reflexivity.
Defined.

End PyObjectPtrUse.

(* ===================================================================== *)
(** * NumpyBuffer: a view that succeeds, the accessors, validity           *)
(* ===================================================================== *)
Module NumpyBufferUse.
Import NumpyBuffer CPythonTheory NumpyBufferTheory.

Lemma read_buf h w b : buf w h = Some b -> read h w = Some (readout_of (desc (view_ b))).
Proof.
  intros Hb. unfold read, data, size, itemsize, ndim, shape, strides, format,
    readonly, as_. rewrite Hb. reflexivity.
Qed.

Lemma read_dead h w : buf w h = None -> read h w = None.
Proof. intros Hb. unfold read, data. rewrite Hb. reflexivity. Qed.

Lemma valid_buf h w b : buf w h = Some b -> valid h w = Some (valid_ b).
Proof. intros Hb. unfold valid. rewrite Hb. reflexivity. Qed.

Lemma buf_pushed w r b : buf (push b r w).2 (length (bufs w)) = Some b.
Proof. apply (buf_push_new w r b). Qed.

(** X6. A [NumpyBuffer] constructed over an exporter in use (read-only
    memory included: the request asks for no write access) is valid, its
    accessors report the exporter's descriptor, the exporter has one more
    reference and has logged one export; destroying the buffer gives the
    view back and leaves heap and error indicator exactly as they were
    before the construction. *)
Theorem view_round_trip junk a o info w :
  heap (rt w) !! a = Some o -> ob_val o = PyExporter info -> ob_refcnt o <> 0%Z ->
  exists h w1 w2,
    ctor junk (Npos a) w = Some (h, w1)
    /\ valid h w1 = Some true
    /\ read h w1 = Some (readout_of info)
    /\ refcnt (rt w1) a = (refcnt (rt w) a + 1)%Z
    /\ trace (rt w1) = trace (rt w) ++ [EvExport a]
    /\ dtor h w1 = Some w2
    /\ valid h w2 = None
    /\ heap (rt w2) = heap (rt w)
    /\ err (rt w2) = err (rt w)
    /\ trace (rt w2) = trace (rt w) ++ [EvExport a; EvRelease a].
Proof.
  intros Ho Hv Hnz.
  set (r1 := log (EvExport a)
               (set_heap (<[a := mkObj (ob_refcnt o + 1) (PyExporter info)]> (heap (rt w)))
                         (rt w))).
  set (b := mkBuf (mkView (Npos a) info) true).
  assert (Hc : ctor junk (Npos a) w = Some (push b r1 w)).
  { unfold ctor, PyObject_GetBuffer, bind, deref. rewrite Ho, Hv.
    change (Z.testbit request_flags 0) with false. simpl.
    unfold Py_INCREF. rewrite Ho, Hv. reflexivity. }
  assert (Hb : buf (push b r1 w).2 (length (bufs w)) = Some b) by apply buf_pushed.
  exists (length (bufs w)), (push b r1 w).2. eexists.
  split; [exact Hc|]. split; [rewrite (valid_buf _ _ _ Hb); reflexivity|].
  split; [rewrite (read_buf _ _ _ Hb); reflexivity|].
  split; [|split; [reflexivity|]].
  { unfold refcnt. simpl. rewrite lookup_insert_eq, Ho. reflexivity. }
  assert (Hd : dtor (length (bufs w)) (push b r1 w).2
     = Some (mkWorld (mkRt (heap (rt w)) (err (rt w)) (mem_left (rt w))
                           ((trace (rt w) ++ [EvExport a]) ++ [EvRelease a]))
                     (<[length (bufs w) := None]> (bufs w ++ [Some b])))).
  { unfold dtor. rewrite Hb. simpl. unfold PyBuffer_Release, bind, Py_DECREF. simpl.
    rewrite lookup_insert_eq. simpl.
    replace (ob_refcnt o + 1 - 1)%Z with (ob_refcnt o) by lia.
    destruct (ob_refcnt o =? 0)%Z eqn:E; [apply Z.eqb_eq in E; contradiction|].
    unfold set_heap. simpl. rewrite insert_insert_eq, <- Hv.
    replace (mkObj (ob_refcnt o) (ob_val o)) with o by (destruct o; reflexivity).
    rewrite insert_id by exact Ho. reflexivity. }
  split; [exact Hd|]. split.
  - unfold valid, buf. simpl. rewrite list_lookup_insert_eq; [reflexivity|].
    rewrite length_app. simpl. lia.
  - simpl. repeat split. rewrite <- app_assoc. reflexivity.
Qed.

Lemma view_round_trip_witness :
  exists h w1 w2,
    ctor demo_junk 1%N demo_world = Some (h, w1)
    /\ valid h w1 = Some true
    /\ read h w1 = Some (readout_of demo_info)
    /\ dtor h w1 = Some w2
    /\ heap (rt w2) = heap (rt demo_world).
Proof.
  destruct (view_round_trip demo_junk 1 (mkObj 1 (PyExporter demo_info)) demo_info
              demo_world eq_refl eq_refl)
    as (h & w1 & w2 & Hc & Hv & Hr & _ & _ & Hd & _ & Hh & _); [discriminate|].
  exists h, w1, w2. auto.
Defined.



(** ** [valid_] and [view_.obj] *)

Lemma coherent_moved_out b : coherent (moved_out b) = true.
Proof. reflexivity. Qed.

Lemma exec_coherent o w w' :
  all_coherent w -> exec o w = Some w' -> all_coherent w'.
Proof.
  unfold all_coherent. intros Hw.
  destruct o as [junk|junk arr|other|this other|h]; cbn [exec].
  - intros [= <-]. simpl. apply Forall_app. split; [exact Hw|].
    constructor; [reflexivity | constructor].
  - destruct (ctor junk arr w) as [[h w1]|] eqn:Hc; [|discriminate].
    intros H. apply (inj Some) in H. cbn [snd] in H. subst w1.
    destruct (ctor_inv _ _ _ _ _ Hc) as (rc & v & Hg & _ & Hb). rewrite Hb.
    apply Forall_app. split; [exact Hw|]. constructor; [|constructor].
    destruct arr as [|a0]; [discriminate|].
    destruct (GetBuffer_effect _ _ _ _ _ _ Hg eq_refl) as (o & Ho & [Hok|Hno]).
    + destruct Hok as (_ & -> & Hobj & _). unfold slot_coherent, coherent. simpl.
      rewrite Hobj. reflexivity.
    + destruct Hno as (_ & -> & -> & _). reflexivity.
  - destruct (buf w other) as [b|] eqn:Hb; [|unfold move_ctor; rewrite Hb; discriminate].
    rewrite (move_ctor_inv _ _ _ Hb). intros H. apply (inj Some) in H.
    cbn [snd push] in H. subst w'. simpl. apply Forall_app. split.
    + apply Forall_insert; [exact Hw | apply coherent_moved_out].
    + constructor; [|constructor].
      apply (proj1 (Forall_lookup _ _) Hw other (Some b)), buf_lookup, Hb.
  - unfold move_assign.
    destruct (buf w this) as [bt|] eqn:Ht; [|discriminate].
    destruct (buf w other) as [bo|] eqn:Hbo; [|discriminate].
    case_decide as Hne; [intros [= <-]; exact Hw|].
    assert (Hbo' : slot_coherent (Some (mkBuf (view_ bo) (valid_ bo)))).
    { rewrite mkBuf_eta.
      apply (proj1 (Forall_lookup _ _) Hw other (Some bo)), buf_lookup, Hbo. }
    assert (Hgoal : forall r, Forall slot_coherent
       (bufs (set_buf other (Some (moved_out bo))
                (set_buf this (Some (mkBuf (view_ bo) (valid_ bo)))
                   (mkWorld r (bufs w)))))).
    { intros r. simpl. apply Forall_insert; [|apply coherent_moved_out].
      apply Forall_insert; [exact Hw | exact Hbo']. }
    destruct (valid_ bt).
    + destruct (PyBuffer_Release (view_ bt) (rt w)) as [[v' r]|]; [|discriminate].
      intros [= <-]. apply Hgoal.
    + intros [= <-]. apply Hgoal.
  - unfold dtor. destruct (buf w h) as [b|]; [|discriminate].
    destruct (valid_ b).
    + destruct (PyBuffer_Release (view_ b) (rt w)) as [[v' r]|]; [|discriminate].
      intros [= <-]. simpl. apply Forall_insert; [exact Hw | exact I].
    + intros [= <-]. simpl. apply Forall_insert; [exact Hw | exact I].
Qed.

(** X8. Over any sequence of constructions, moves, move assignments and
    destructions, every live buffer keeps [valid()] equal to
    [view_.obj != nullptr]: a valid buffer always names its exporter, an
    invalid one (default-constructed, failed, moved-from) never holds a
    reference to one, so no path can release a view twice or drop a count
    it does not hold. *)
Theorem valid_iff_obj_set ops : forall w w',
  all_coherent w -> run ops w = Some w' ->
  all_coherent w'
  /\ forall h b, buf w' h = Some b ->
       (valid_ b = true <-> obj (view_ b) <> NULL)
       /\ (valid_ b = false -> PyBuffer_Release (view_ b) (rt w') = Some (view_ b, rt w')).
Proof.
  assert (Hrun : forall l w w', all_coherent w -> run l w = Some w' -> all_coherent w').
  { intros l. induction l as [|o l IH]; simpl; intros w w' Hw Hr.
    - injection Hr as <-. exact Hw.
    - destruct (exec o w) as [w1|] eqn:He; [|discriminate].
      eapply IH; [|exact Hr]. eapply exec_coherent; eassumption. }
  intros w w' Hw Hr. pose proof (Hrun ops w w' Hw Hr) as Hw'.
  split; [exact Hw'|]. intros h b Hb.
  pose proof (proj1 (Forall_lookup _ _) Hw' h (Some b) (buf_lookup _ _ _ Hb)) as Hc.
  unfold slot_coherent, coherent in Hc. apply eqb_prop in Hc.
  destruct b as [[o d] v]. simpl in *. subst v. split.
  - destruct o; simpl; split; congruence.
  - destruct o; simpl; [reflexivity | discriminate].
Qed.

Lemma valid_iff_obj_set_witness :
  exists w', run demo_ops demo_world = Some w' /\ all_coherent w'.
Proof.
  eexists. split; [vm_compute; reflexivity|].
  apply (valid_iff_obj_set demo_ops demo_world _ (List.Forall_nil _) eq_refl).
Defined.

End NumpyBufferUse.

(* ===================================================================== *)
(** * Converters: ranges, round trips, what they leave alone               *)
(* ===================================================================== *)
Module ConvertersUse.
Import Converters CPythonTheory ConvertersTheory.

(** ** UTF-8: encoding undoes decoding *)












Lemma utf8_decode_nil bs : utf8_decode bs = Some [] -> bs = [].
Proof.
  destruct bs as [|b0 r0]; [reflexivity|]. cbn [utf8_decode]. intros H. exfalso.
  repeat match type of H with
  | (if ?c then _ else _) = _ => destruct c
  | match ?l with [] => _ | _ :: _ => _ end = _ => destruct l
  | cons _ <$> ?o = _ => destruct o; simpl in H
  end; discriminate.
Qed.

Lemma fits_range z : fits_long_long z = true -> (LLONG_MIN <= z <= LLONG_MAX)%Z.
Proof.
  unfold fits_long_long. intros H. apply andb_true_iff in H. destruct H as [H1 H2].
  apply Z.leb_le in H1, H2. lia.
Qed.

Lemma py_to_long_cases p r v r' :
  py_to_long p r = Some (v, r') ->
  (fits_long_long v = true /\ r' = r) \/ (v = (-1)%Z /\ exists e, r' = set_err e r).
Proof.
  unfold py_to_long, PyLong_AsLongLong, bind, deref, long_long_of, fail_with, ret.
  destruct p as [|a]; [intros [= <- <-]; right; eauto|].
  destruct (heap r !! a) as [o|]; [|discriminate].
  destruct (ob_val o) as [|b|z|d|cps|info|[| |z] nb|e b0];
    try (intros [= <- <-]; right; eauto; fail).
  - destruct b; intros [= <- <-]; left; split; reflexivity.
  - destruct (fits_long_long z) eqn:E; intros [= <- <-]; [left | right]; eauto.
  - destruct (fits_long_long z) eqn:E; intros [= <- <-]; [left | right]; eauto.
Qed.

(** X9. Whatever object it is given, [py_to_long] returns a value inside
    the [long long] range; on an [int] inside that range it returns the
    value and leaves the runtime untouched, on an [int] outside it returns
    [-1] with [OverflowError] set.  When it fails it returns [-1], but
    [-1] is also what an [int] of value -1 converts to: only the error
    indicator tells the two apart. *)
Theorem py_to_long_in_range p r v r' :
  py_to_long p r = Some (v, r') ->
  (LLONG_MIN <= v <= LLONG_MAX)%Z
  /\ (forall a o z, p = Npos a -> heap r !! a = Some o -> ob_val o = PyLong z ->
       if fits_long_long z then v = z /\ r' = r
       else v = (-1)%Z /\ r' = set_err OverflowError r)
  /\ (forall a o r0, heap r0 !! a = Some o -> ob_val o = PyLong (-1) ->
       py_to_long (Npos a) r0 = Some ((-1)%Z, r0)).
Proof.
  intros H. split; [|split].
  - destruct (py_to_long_cases _ _ _ _ H) as [[Hf _]|[-> _]].
    + apply fits_range, Hf.
    + unfold LLONG_MIN, LLONG_MAX. lia.
  - intros a o z -> Ho Hv. revert H.
    unfold py_to_long, PyLong_AsLongLong, bind, deref, long_long_of, fail_with, ret.
    rewrite Ho, Hv. destruct (fits_long_long z); intros [= <- <-]; split; reflexivity.
  - intros a o r0 Ho Hv. eapply py_to_long_of_int; [exact Ho | exact Hv | reflexivity].
Qed.

Lemma py_to_long_in_range_witness :
  (LLONG_MIN <= -1 <= LLONG_MAX)%Z
  /\ py_to_long 2 demo_rt = Some ((-1)%Z, set_err OverflowError demo_rt).
Proof.
  split.
  - apply (py_to_long_in_range 2 demo_rt (-1) (set_err OverflowError demo_rt) eq_refl).
  - reflexivity.
Defined.

(** X10. Every [double] (infinities and NaN included) and every
    [long long] survives the trip through a Python object, and the object
    returned is a new reference: [double_to_py] makes a new object with one
    count at an address that was free; [long_to_py] returns an object whose
    count is one higher than the address had before, a new one or the one
    the runtime shares for that value, and changes nothing else;
    [py_to_double] / [py_to_long] read the value back and leave the
    runtime as it is.  When the runtime shares an object for the value
    [long_to_py] needs no memory.  A null result comes with [MemoryError]
    and nothing else changed. *)
Theorem numeric_round_trips r d z :
  fits_long_long z = true ->
  (0 < mem_left r ->
     (exists a r1, double_to_py d r = Some (Npos a, r1)
        /\ heap r !! a = None /\ heap r1 = <[a := mkObj 1 (PyFloat d)]> (heap r)
        /\ err r1 = err r /\ py_to_double (Npos a) r1 = Some (d, r1))
     /\ (exists a r1, long_to_py z r = Some (Npos a, r1)
        /\ refcnt r1 a = (refcnt r a + 1)%Z
        /\ (forall b, b <> a -> heap r1 !! b = heap r !! b)
        /\ err r1 = err r /\ py_to_long (Npos a) r1 = Some (z, r1)))
  /\ (forall a, shared (PyLong z) r = Some a ->
      (-5 <= z <= 256)%Z
      /\ exists r1, long_to_py z r = Some (Npos a, r1)
        /\ refcnt r1 a = (refcnt r a + 1)%Z
        /\ mem_left r1 = mem_left r
        /\ py_to_long (Npos a) r1 = Some (z, r1))
  /\ (forall r1, double_to_py d r = Some (NULL, r1) -> r1 = set_err MemoryError r)
  /\ (forall r1, long_to_py z r = Some (NULL, r1) -> r1 = set_err MemoryError r).
Proof.
  intros Hz.
  assert (Hnull : forall v r1, alloc v r = Some (NULL, r1) -> r1 = set_err MemoryError r).
  { intros v r1. unfold alloc. destruct (mem_left r); [|discriminate].
    intros H. apply (inj Some) in H. apply (f_equal snd) in H. symmetry. exact H. }
  assert (Hlong : forall a r1, long_to_py z r = Some (Npos a, r1) ->
            heap r1 = <[a := mkObj (refcnt r a + 1) (PyLong z)]> (heap r) ->
            refcnt r1 a = (refcnt r a + 1)%Z
            /\ (forall b, b <> a -> heap r1 !! b = heap r !! b)
            /\ py_to_long (Npos a) r1 = Some (z, r1)).
  { intros a r1 _ Hh. destruct (new_ref_lookup _ _ _ _ Hh) as (Hl & Hrc & Hoth).
    split; [exact Hrc|]. split; [exact Hoth|].
    eapply py_to_long_of_int; [exact Hl | reflexivity | exact Hz]. }
  split; [|split; [|split]].
  - intros Hm. split.
    + destruct (alloc_defined (PyFloat d) r Hm) as (a & r1 & Ha & Hl & Hf & He & _).
      exists a, r1. split; [exact Ha|]. split; [exact Hf|].
      split; [|split; [exact He|]].
      * revert Ha. unfold alloc. destruct (mem_left r); [discriminate|].
        intros H. apply (inj Some) in H.
        assert (Ha1 : a = fresh (dom (heap r))).
        { apply (f_equal fst) in H. cbn [fst] in H. congruence. }
        apply (f_equal snd) in H. cbn [snd] in H. rewrite <- H, Ha1. reflexivity.
      * eapply py_to_double_of_float; [exact Hl | reflexivity].
    + destruct (new_ref_defined (PyLong z) r (or_introl Hm))
        as (a & r1 & Ha & Hh & _ & He & _).
      destruct (Hlong a r1 Ha Hh) as (Hrc & Hoth & Hback).
      exists a, r1. auto 6.
  - intros a Hs. destruct (shared_inv _ _ _ Hs) as (Hslot & _). split.
    + unfold shared_slot in Hslot.
      destruct ((-5 <=? z) && (z <=? 256))%Z eqn:E; [|discriminate].
      apply andb_true_iff in E. destruct E as [E1 E2].
      apply Z.leb_le in E1, E2. lia.
    + destruct (new_ref_defined (PyLong z) r) as (a' & r1 & Ha & Hh & _ & _ & _ & Hmem).
      { right. rewrite Hs. eauto. }
      assert (Haa : a' = a).
      { revert Ha. unfold new_ref. rewrite Hs. unfold bind, ret.
        destruct (Py_INCREF a r) as [[u r2]|]; [|discriminate].
        intros H. apply (inj Some) in H. apply (f_equal fst) in H. cbn [fst] in H.
        congruence. }
      subst a'. destruct (Hlong a r1 Ha Hh) as (Hrc & _ & Hback).
      exists r1. auto.
  - intros r1. apply Hnull.
  - intros r1. unfold long_to_py, PyLong_FromLongLong, new_ref.
    destruct (shared (PyLong z) r) as [a|]; [|apply Hnull].
    unfold bind, ret. destruct (Py_INCREF a r) as [[u r2]|]; discriminate.
Qed.

Lemma numeric_round_trips_witness :
  (exists a r1, double_to_py S754_nan demo_rt = Some (Npos a, r1)
                /\ py_to_double (Npos a) r1 = Some (S754_nan, r1))
  /\ (exists r1, long_to_py 42 shared_rt = Some (1048%N, r1)
                 /\ mem_left shared_rt = 0
                 /\ py_to_long 1048 r1 = Some (42%Z, r1)).
Proof.
  split.
  - destruct (proj1 (numeric_round_trips demo_rt S754_nan LLONG_MIN eq_refl))
      as [(a & r1 & Ha & _ & _ & _ & Hb) _]; [simpl; lia|].
    exists a, r1. split; assumption.
  - destruct (proj1 (proj2 (numeric_round_trips shared_rt S754_nan 42 eq_refl))
                1048%positive eq_refl)
      as (_ & r1 & Ha & _ & _ & Hb).
    exists r1. split; [exact Ha|]. split; [reflexivity | exact Hb].
Defined.





Lemma py_to_bool_cases p r b r' :
  py_to_bool p r = Some (b, r') ->
  r' = r \/ (b = true /\ r' = set_err UserError r).
Proof.
  unfold py_to_bool, PyObject_IsTrue, bind, deref, fail_with, ret.
  destruct p as [|a]; [discriminate|].
  destruct (heap r !! a) as [o|]; [|discriminate].
  destruct (ob_val o) as [|b0|z|d0|cps|info|nb1 [| |b1]|e b1]; simpl;
    intros [= <- <-]; try (left; reflexivity).
  right. split; reflexivity.
Qed.




Lemma INCREF_singleton a o r :
  heap r !! a = Some o ->
  exists r1, Py_INCREF a r = Some (tt, r1)
    /\ heap r1 !! a = Some (mkObj (ob_refcnt o + 1) (ob_val o))
    /\ mem_left r1 = mem_left r /\ err r1 = err r /\ trace r1 = trace r
    /\ dom (heap r1) = dom (heap r).
Proof.
  intros Ho. unfold Py_INCREF. rewrite Ho. eexists. split; [reflexivity|]. simpl.
  split; [apply lookup_insert_eq|]. repeat split.
  apply dom_insert_lookup_L. rewrite Ho. eauto.
Qed.

(** X13. [bool_to_py] allocates nothing: it returns [Py_True] or
    [Py_False] after the argument, with one more reference on that object
    and no other change; [py_to_bool] of the result is the argument, and
    [py_to_long] and [py_to_double] see it as 1 / 0 and 1.0 / 0.0.  It also
    works with no memory left. *)
Theorem bool_round_trip k r b :
  singletons_at k r = true ->
  exists a r1, bool_to_py k b r = Some (Npos a, r1)
    /\ a = (if b then Py_True k else Py_False k)
    /\ (forall c, refcnt r1 c = (refcnt r c + if decide (a = c) then 1 else 0)%Z)
    /\ dom (heap r1) = dom (heap r)
    /\ mem_left r1 = mem_left r /\ err r1 = err r /\ trace r1 = trace r
    /\ py_to_bool (Npos a) r1 = Some (b, r1)
    /\ py_to_long (Npos a) r1 = Some ((if b then 1 else 0)%Z, r1)
    /\ py_to_double (Npos a) r1 = Some (double_of_Z (if b then 1 else 0), r1).
Proof.
  unfold singletons_at. intros Hk.
  destruct (heap r !! Py_True k) as [t|] eqn:Ht; [|discriminate].
  destruct (heap r !! Py_False k) as [f|] eqn:Hf; [|discriminate].
  destruct (ob_val t) as [|[|]| | | | | |] eqn:Hvt; try discriminate.
  destruct (ob_val f) as [|[|]| | | | | |] eqn:Hvf; try discriminate.
  set (a := if b then Py_True k else Py_False k).
  assert (Ha : exists o, heap r !! a = Some o /\ ob_val o = PyBool b).
  { subst a. destruct b; eauto. }
  destruct Ha as (o & Ho & Hv).
  destruct (INCREF_singleton a o r Ho) as (r1 & Hi & Hl & Hm & He & Htr & Hd).
  exists a, r1. split.
  { unfold bool_to_py, PyBool_FromLong, bind, ret. cbv zeta.
    replace (if ((if b then 1 else 0) =? 0)%Z then Py_False k else Py_True k) with a
      by (subst a; destruct b; reflexivity).
    rewrite Hi. reflexivity. }
  split; [reflexivity|].
  split; [intros c; apply (refcnt_INCREF a c r r1 Hi)|].
  split; [exact Hd|]. split; [exact Hm|]. split; [exact He|]. split; [exact Htr|].
  rewrite Hv in Hl.
  unfold py_to_bool, py_to_long, py_to_double, PyObject_IsTrue, PyLong_AsLongLong,
    PyFloat_Check, PyLong_Check, bind, deref, ret.
  repeat (simpl; rewrite ?Hl).
  destruct b; repeat split; reflexivity.
Qed.

Lemma bool_round_trip_witness :
  exists r1, bool_to_py (mkSingletons 1 2) true
               (mkRt {[ 1%positive := mkObj 5 (PyBool true);
                        2%positive := mkObj 9 (PyBool false) ]} None 0 [])
             = Some (1%N, r1)
             /\ refcnt r1 1 = 6%Z /\ py_to_bool 1 r1 = Some (true, r1).
Proof.
  destruct (bool_round_trip (mkSingletons 1 2)
              (mkRt {[ 1%positive := mkObj 5 (PyBool true);
                       2%positive := mkObj 9 (PyBool false) ]} None 0 []) true)
    as (a & r1 & H1 & -> & H2 & _ & _ & _ & _ & H3 & _); [reflexivity|].
  exists r1. split; [exact H1|]. split; [rewrite H2; reflexivity | exact H3].
Defined.

(** X14. The converters compose across types as the runtime's conversions
    do: an object made by [long_to_py] reads back through [py_to_double] as
    the nearest double and through [py_to_bool] as "non-zero"; one made by
    [double_to_py] is true unless it is a zero (NaN is true); one made by
    [string_to_py] is true unless the text is empty, is [0.0] for
    [py_to_double] with no error, and fails [py_to_long] with [TypeError].
    Neither number has a UTF-8 text: [py_to_string] returns the null
    pointer with [TypeError]. *)
Theorem conversions_compose r z d s :
  fits_long_long z = true -> 0 < mem_left r ->
  (exists p r1, long_to_py z r = Some (p, r1)
     /\ py_to_double p r1 = Some (double_of_Z z, r1)
     /\ py_to_bool p r1 = Some (negb (z =? 0)%Z, r1)
     /\ py_to_string p r1 = Some (None, set_err TypeError r1))
  /\ (exists p r1, double_to_py d r = Some (p, r1)
     /\ py_to_bool p r1 = Some (negb (dbl_is_zero d), r1)
     /\ py_to_string p r1 = Some (None, set_err TypeError r1))
  /\ (valid_utf8 s = true ->
     exists p r1, string_to_py s r = Some (p, r1)
       /\ py_to_bool p r1
          = Some (match c_str (bytes_of_string s) with [] => false | _ => true end, r1)
       /\ py_to_double p r1 = Some (dbl_zero, r1)
       /\ py_to_long p r1 = Some ((-1)%Z, set_err TypeError r1)).
Proof.
  intros Hz Hm. split; [|split].
  - destruct (new_ref_defined (PyLong z) r (or_introl Hm)) as (a & r1 & Ha & Hh & _).
    pose proof (proj1 (new_ref_lookup _ _ _ _ Hh)) as Hl.
    exists (Npos a), r1. split; [exact Ha|].
    unfold py_to_double, py_to_bool, py_to_string, PyFloat_Check, PyLong_Check,
      PyLong_AsLongLong, PyObject_IsTrue, PyUnicode_AsUTF8, bind, deref, long_long_of, ret.
    repeat (cbn -[fits_long_long double_of_Z]; rewrite ?Hl, ?Hz).
    repeat split. destruct (z =? 0)%Z; reflexivity.
  - destruct (alloc_defined (PyFloat d) r Hm) as (a & r1 & Ha & Hl & _).
    exists (Npos a), r1. split; [exact Ha|].
    unfold py_to_bool, py_to_string, PyObject_IsTrue, PyUnicode_AsUTF8, bind, deref, ret.
    rewrite Hl. simpl. split; [|reflexivity]. destruct (dbl_is_zero d); reflexivity.
  - unfold valid_utf8, string_to_py, PyUnicode_FromString.
    destruct (utf8_decode (c_str (bytes_of_string s))) as [cps|] eqn:Hd; [|discriminate].
    intros _.
    destruct (new_ref_defined (PyUnicode cps) r (or_introl Hm)) as (a & r1 & Ha & Hh & _).
    pose proof (proj1 (new_ref_lookup _ _ _ _ Hh)) as Hl.
    exists (Npos a), r1. split; [exact Ha|].
    unfold py_to_double, py_to_bool, py_to_long, PyFloat_Check, PyLong_Check,
      PyLong_AsLongLong, PyObject_IsTrue, bind, deref, ret.
    rewrite Hl. simpl. rewrite Hl. simpl. repeat split.
    destruct cps as [|c cs].
    + rewrite (utf8_decode_nil _ Hd). reflexivity.
    + destruct (c_str (bytes_of_string s)); [discriminate Hd | reflexivity].
Qed.

Lemma conversions_compose_witness :
  exists p r1, long_to_py 7 demo_rt = Some (p, r1)
               /\ py_to_double p r1 = Some (double_of_Z 7, r1)
               /\ py_to_bool p r1 = Some (true, r1).
Proof.
  destruct (conversions_compose demo_rt 7 dbl_zero naive eq_refl) as [(p & r1 & H1 & H2 & H3 & _) _];
    [simpl; lia|].
  exists p, r1. split; [exact H1|]. split; [exact H2 | exact H3].
Defined.

End ConvertersUse.

(* ===================================================================== *)
(** * ScopeGuard: several guards                                           *)
(* ===================================================================== *)
Module ScopeGuardUse.
Import ScopeGuard ScopeGuardTheory.

Section Guards.

Context {W E : Type}.
Variable moved_from : action W E -> action W E.

Implicit Types (m : machine W E) (sg : ScopeGuard W E).

Lemma pending_ext m m' g : guard m' g = guard m g -> pending m' g = pending m g.
Proof. unfold pending. intros ->. reflexivity. Qed.

(** One destructor: its own action if active, nothing else, and no other
    guard changes. *)
Lemma destroy_own g m sg :
  guard m g = Some sg ->
  exists m1, exec moved_from (Destroy g) m = Some m1
    /\ ran m1 = ran m ++ pending m g
    /\ world m1 = fold_left (fun w f => effect f w) (pending m g) (world m)
    /\ guard m1 g = None
    /\ forall g', g' <> g -> guard m1 g' = guard m g'.
Proof.
  intros Hg. pose proof (guard_live _ _ _ Hg) as Hlt.
  cbn [exec]. unfold dtor, pending, call, effect. rewrite Hg.
  destruct (active_ sg).
  - destruct (cleanup_ sg (world m)) as [w'|e w'] eqn:Hc;
      (eexists; split; [reflexivity|]; cbn; rewrite ?Hc;
       split; [reflexivity|]; split; [reflexivity|]; split;
       [apply (guard_set_eq (mkMachine w' (ran m ++ [cleanup_ sg]) (guards m))); exact Hlt
       | intros g' Hne;
         apply (guard_set_ne (mkMachine w' (ran m ++ [cleanup_ sg]) (guards m)));
         congruence]).
  - eexists. split; [reflexivity|]. cbn. rewrite app_nil_r.
    split; [reflexivity|]. split; [reflexivity|]. split.
    + apply guard_set_eq. exact Hlt.
    + intros g' Hne. apply guard_set_ne. congruence.
Qed.

(** X15. Guards do not interfere.  Destroying any set of live guards, in
    any order, is defined; it runs the action of each active guard among
    them once, in the order of destruction, and nothing else: an action
    that throws stops neither its own guard's destruction nor the actions
    after it, dismissed and moved-from guards contribute nothing, and the
    guards not destroyed are left as they were, still holding their
    actions. *)
Theorem guards_are_independent order : forall m,
  NoDup order -> (forall g, elem_of g order -> is_Some (guard m g)) ->
  exists m',
    run moved_from (map Destroy order) m = Some m'
    /\ ran m' = ran m ++ concat (map (pending m) order)
    /\ world m' = fold_left (fun w f => effect f w) (concat (map (pending m) order)) (world m)
    /\ (forall g, elem_of g order -> guard m' g = None)
    /\ (forall g, ~ elem_of g order -> guard m' g = guard m g).
Proof.
  induction order as [|g rest IH]; intros m Hnd Hlive.
  - exists m. cbn. rewrite app_nil_r. repeat split; try reflexivity.
    intros g Hg. inversion Hg.
  - apply NoDup_cons in Hnd. destruct Hnd as [Hnotin Hnd].
    destruct (Hlive g) as [sg Hg]; [left|].
    destruct (destroy_own g m sg Hg) as (m1 & He & Hr & Hw & Hgone & Hothers).
    assert (Hsame : forall g', elem_of g' rest -> guard m1 g' = guard m g').
    { intros g' Hin. apply Hothers. intros ->. contradiction. }
    destruct (IH m1 Hnd) as (m' & Hrun & Hr' & Hw' & Hgone' & Hothers').
    { intros g' Hin. rewrite (Hsame g' Hin). apply Hlive. right. exact Hin. }
    assert (Hp : map (pending m1) rest = map (pending m) rest).
    { apply map_ext_in. intros g' Hin. apply pending_ext, Hsame.
      apply list_elem_of_In. exact Hin. }
    rewrite Hp in Hr', Hw'.
    exists m'. cbn [map run concat]. rewrite He.
    split; [exact Hrun|]. split; [rewrite Hr', Hr, app_assoc; reflexivity|].
    split; [rewrite Hw', Hw, fold_left_app; reflexivity|]. split.
    + intros g' Hin. apply elem_of_cons in Hin. destruct Hin as [->|Hin].
      * rewrite (Hothers' g Hnotin). exact Hgone.
      * apply Hgone', Hin.
    + intros g' Hnin. apply not_elem_of_cons in Hnin. destruct Hnin as [Hne Hnin].
      rewrite (Hothers' g' Hnin). apply Hothers, Hne.
Qed.

End Guards.

Lemma guards_are_independent_witness :
  exists m',
    run forget [Destroy 1; Destroy 2] three_guards = Some m'
    /\ ran m' = [bump_and_throw] /\ world m' = 1
    /\ guard m' 0 = Some (mkGuard bump true).
Proof.
  destruct (guards_are_independent forget [1; 2] three_guards) as (m' & H1 & H2 & H3 & _ & H4).
  - apply NoDup_cons_2; [|apply NoDup_singleton].
    intros H. apply list_elem_of_singleton in H. discriminate H.
  - intros g Hg. apply elem_of_cons in Hg. destruct Hg as [->|Hg].
    + eexists. reflexivity.
    + apply list_elem_of_singleton in Hg. subst g. eexists. reflexivity.
  - exists m'. split; [exact H1|]. split; [exact H2|]. split; [exact H3|].
    rewrite H4; [reflexivity|].
    intros H. apply elem_of_cons in H. destruct H as [H|H]; [discriminate H|].
    apply list_elem_of_singleton in H. discriminate H.
Defined.

End ScopeGuardUse.
